(** * audio_int_gpt: the image-resolution fallback chain

    A shallow embedding of the image lookup of [audio_int_gpt.py]
    ([get_wikipedia_image] with its four nested helpers,
    [get_duckduckgo_image] and [get_bird_image]) and the properties the
    specification states about it.

    Modelling choices.
    - A Python value that [json.loads] can produce is a [pyval]; integers are
      unbounded ([Z]), floats are IEEE binary64 values ([spec_float] at
      precision 53), a dict is an association list read by its first binding.
    - A Python [str] is a [string]; a name or a page body outside ASCII is
      held as its UTF-8 bytes, which is what [quote] encodes (a name with a
      lone surrogate, which has no UTF-8 encoding, is outside the model).
      The character class [\w] of the two token patterns, which Python
      takes from the Unicode database, is the parameter [word_char] of the
      scrape path.
    - Exceptions are values of [exn]; every one of them is an instance of
      Python's [Exception], so [except Exception] catches them all.
    - The two effects of the code, [requests.get] and [time.sleep], are the
      nodes of a command tree [io]; [exec] runs a tree against an upstream
      [network], which answers a request from the history of the run so far,
      and returns the outcome with the events of the run in order.
    - [_extract_json] and the part of [analyze_bird_sound] that reads the
      model's message are pure; the library functions they call
      ([json.loads], [str.strip], [float] on a string) and the class [\s]
      are parameters.  The recording, the call of the model and the
      Streamlit page are not modelled. *)

From Stdlib Require Import ZArith QArith Qabs Bool List String Ascii Lia.
From Stdlib Require Import Floats.SpecFloat.
Import ListNotations.

Local Open Scope string_scope.
Local Open Scope list_scope.
Local Open Scope Z_scope.

#[local] Set Warnings "-register-all".

(** ** Python values *)

Inductive pyval : Type :=
| PNone
| PBool (b : bool)
| PInt (n : Z)
| PFloat (f : spec_float)
| PStr (s : string)
| PList (l : list pyval)
| PDict (d : list (string * pyval)).

Inductive exn : Type :=
| AttributeError
| TypeError
| KeyError
| IndexError
| JSONDecodeError
| RequestException.

Inductive result (A : Type) : Type :=
| Ok (a : A)
| Raise (e : exn).

Arguments Ok {A} a.
Arguments Raise {A} e.

Definition rbind {A B : Type} (m : result A) (f : A -> result B) : result B :=
  match m with
  | Ok a => f a
  | Raise e => Raise e
  end.

Declare Scope result_scope.
Delimit Scope result_scope with result.
Notation "x <- m ;; k" := (rbind m (fun x => k))
  (at level 100, m at next level, right associativity) : result_scope.

(** [bool(v)]: [None], [False], zero of either numeric type, and the empty
    string, list and dict are false. *)
Definition truthy (v : pyval) : bool :=
  match v with
  | PNone => false
  | PBool b => b
  | PInt n => negb (n =? 0)
  | PFloat (S754_zero _) => false
  | PFloat _ => true
  | PStr s => negb (s =? "")%string
  | PList [] => false
  | PList _ => true
  | PDict [] => false
  | PDict _ => true
  end.

(** [a or b] *)
Definition py_or (a b : pyval) : pyval := if truthy a then a else b.

Fixpoint dict_get (d : list (string * pyval)) (k : string) : option pyval :=
  match d with
  | [] => None
  | (k', v) :: rest => if (k' =? k)%string then Some v else dict_get rest k
  end.

(** [d.get(k)] on a dict: [None] for a key that is not there. *)
Definition dict_get_or_none (d : list (string * pyval)) (k : string) : pyval :=
  match dict_get d k with
  | Some x => x
  | None => PNone
  end.

(** [v.get(k)]: of the values [json.loads] produces only a dict has [get]. *)
Definition py_get (v : pyval) (k : string) : result pyval :=
  match v with
  | PDict d => Ok (dict_get_or_none d k)
  | _ => Raise AttributeError
  end.

Definition isinstance_dict (v : pyval) : bool :=
  match v with PDict _ => true | _ => false end.

(** [isinstance(v, int)]: [bool] is a subclass of [int]. *)
Definition isinstance_int (v : pyval) : bool :=
  match v with PInt _ | PBool _ => true | _ => false end.

(** The integer an instance of [int] compares as ([True] is 1). *)
Definition int_value (v : pyval) : Z :=
  match v with
  | PInt n => n
  | PBool true => 1
  | _ => 0
  end.

(** [v != s] for a string literal [s] *)
Definition py_ne_str (v : pyval) (s : string) : bool :=
  match v with
  | PStr t => negb (t =? s)%string
  | _ => true
  end.

Fixpoint chars (s : string) : list pyval :=
  match s with
  | EmptyString => []
  | String c rest => PStr (String c EmptyString) :: chars rest
  end.

(** The elements a [for] loop over [v] visits: the items of a list, the keys
    of a dict, the characters of a string; the other values are not
    iterable. *)
Definition py_iter (v : pyval) : result (list pyval) :=
  match v with
  | PList l => Ok l
  | PDict d => Ok (map (fun kv => PStr (fst kv)) d)
  | PStr s => Ok (chars s)
  | _ => Raise TypeError
  end.

(** [v[0]] *)
Definition py_index0 (v : pyval) : result pyval :=
  match v with
  | PList (x :: _) => Ok x
  | PList [] => Raise IndexError
  | PStr (String c _) => Ok (PStr (String c EmptyString))
  | PStr EmptyString => Raise IndexError
  | PDict _ => Raise KeyError
  | _ => Raise TypeError
  end.

(** ** [urllib.parse.quote(s, safe='')] *)

Definition is_alnum (c : ascii) : bool :=
  let n := nat_of_ascii c in
  ((48 <=? n) && (n <=? 57) || (65 <=? n) && (n <=? 90)
   || (97 <=? n) && (n <=? 122))%nat.

(** The characters [quote] never escapes: letters, digits and [_.-~]. *)
Definition unreserved (c : ascii) : bool :=
  is_alnum c
  || (c =? "_")%char || (c =? ".")%char || (c =? "-")%char || (c =? "~")%char.

Definition hex_digit (n : nat) : ascii :=
  if (n <? 10)%nat then ascii_of_nat (48 + n) else ascii_of_nat (55 + n).

Fixpoint quote (s : string) : string :=
  match s with
  | EmptyString => EmptyString
  | String c rest =>
      if unreserved c then String c (quote rest)
      else
        let n := nat_of_ascii c in
        String "%" (String (hex_digit (n / 16)) (String (hex_digit (n mod 16))
          (quote rest)))
  end.

(** ** HTTP *)

Record request : Type := mkRequest {
  url : string;
  headers : list (string * string);
  timeout : pyval
}.

(** What the code reads of a [requests.Response]: the status, the body as
    text, and what [json()] gives ([None] when the body does not parse, in
    which case [json()] raises). *)
Record response : Type := mkResponse {
  status_code : Z;
  text : string;
  json : option pyval
}.

(** [bool(res)] is [res.ok]: no 4xx or 5xx status. *)
Definition response_bool (r : response) : bool :=
  negb ((400 <=? status_code r) && (status_code r <? 600)).

(** ** The command tree *)

Inductive io (A : Type) : Type :=
| Ret (a : A)
| Throw (e : exn)
| Get (rq : request) (k : result response -> io A)
| Sleep (d : spec_float) (k : io A).

Arguments Ret {A} a.
Arguments Throw {A} e.
Arguments Get {A} rq k.
Arguments Sleep {A} d k.

Fixpoint bind {A B : Type} (m : io A) (f : A -> io B) : io B :=
  match m with
  | Ret a => f a
  | Throw e => Throw e
  | Get rq k => Get rq (fun r => bind (k r) f)
  | Sleep d k => Sleep d (bind k f)
  end.

(** [try: m except Exception: h] *)
Fixpoint try_except {A : Type} (m : io A) (h : exn -> io A) : io A :=
  match m with
  | Ret a => Ret a
  | Throw e => h e
  | Get rq k => Get rq (fun r => try_except (k r) h)
  | Sleep d k => Sleep d (try_except k h)
  end.

Definition lift {A : Type} (m : result A) : io A :=
  match m with
  | Ok a => Ret a
  | Raise e => Throw e
  end.

Declare Scope io_scope.
Delimit Scope io_scope with io.
Notation "x <- m ;; k" := (bind m (fun x => k))
  (at level 100, m at next level, right associativity) : io_scope.

(** [requests.get(url, headers=headers, timeout=timeout)] *)
Definition requests_get (u : string) (hs : list (string * string))
  (tmo : pyval) : io response :=
  Get (mkRequest u hs tmo) lift.

(** [time.sleep(d)] *)
Definition time_sleep (d : spec_float) : io unit := Sleep d (Ret tt).

(** [res.json()] *)
Definition res_json (r : response) : io pyval :=
  match json r with
  | Some v => Ret v
  | None => Throw JSONDecodeError
  end.

(** ** Running a command tree *)

Inductive event : Type :=
| EvGet (rq : request) (r : result response)
| EvSleep (d : spec_float).

Definition trace : Type := list event.

(** The upstream: what a request is answered with (a response, or the
    exception [requests.get] raises), given the events so far. *)
Definition network : Type := trace -> request -> result response.

Fixpoint exec {A : Type} (net : network) (h : trace) (m : io A)
  : result A * trace :=
  match m with
  | Ret a => (Ok a, [])
  | Throw e => (Raise e, [])
  | Get rq k =>
      let r := net h rq in
      let '(out, t) := exec net (h ++ [EvGet rq r]) (k r) in
      (out, EvGet rq r :: t)
  | Sleep d k =>
      let '(out, t) := exec net (h ++ [EvSleep d]) k in
      (out, EvSleep d :: t)
  end.

(** ** Floats of the retry policy *)

(** [float(n)] *)
Definition float_of_int (n : Z) : spec_float := binary_normalize 53 1024 n 0 false.

(** The binary64 value of the literal [0.4]. *)
Definition float_0_4 : spec_float := S754_finite false 7205759403792794 (-54).

(** The binary64 value of the literal [0.8]. *)
Definition float_0_8 : spec_float := S754_finite false 7205759403792794 (-53).

(** The rational a finite float stands for. *)
Definition Q_of_float (f : spec_float) : Q :=
  match f with
  | S754_finite s m e =>
      ((if s then -1 else 1) * inject_Z (Z.pos m) * Qpower 2 e)%Q
  | _ => 0%Q
  end.

(** [0.4 * (attempt + 1)]: the integer is converted, then one rounded
    binary64 product.  (The conversion overflows only beyond 10^308
    attempts, which is left out of the model.) *)
Definition backoff (attempt : Z) : spec_float :=
  SFmul 53 1024 float_0_4 (float_of_int (attempt + 1)).

(** ** [get_wikipedia_image] and its helpers *)

(** The [try] block of one attempt: the response when its status is 200. *)
Definition attempt_get (u : string) (hs : list (string * string))
  (tmo : pyval) : io (option response) :=
  try_except
    (res <- requests_get u hs tmo ;;
     if status_code res =? 200 then Ret (Some res) else Ret None)%io
    (fun _ => Ret None).

(** [for attempt in range(retries + 1)], from [attempt] on, [n] rounds
    left. *)
Fixpoint retry_loop (u : string) (hs : list (string * string)) (retries : Z)
  (tmo : pyval) (n : nat) (attempt : Z) : io (option response) :=
  match n with
  | O => Ret None
  | S n' =>
      (got <- attempt_get u hs tmo ;;
       match got with
       | Some res => Ret (Some res)
       | None =>
           _ <- (if attempt <? retries then time_sleep (backoff attempt)
                 else Ret tt) ;;
           retry_loop u hs retries tmo n' (attempt + 1)
       end)%io
  end.

Definition _request_with_retries (u : string) (hs : list (string * string))
  (retries : Z) (tmo : pyval) : io (option response) :=
  retry_loop u hs retries tmo (Z.to_nat (retries + 1)) 0.

(** The defaults [retries = 2] and [timeout = 8.0]. *)
Definition default_retries : Z := 2.
Definition default_timeout : pyval := PFloat (float_of_int 8).

Definition summary_url (title lang : string) : string :=
  ("https://" ++ lang ++ ".wikipedia.org/api/rest_v1/page/summary/"
   ++ quote title)%string.

Definition media_list_url (title lang : string) : string :=
  ("https://" ++ lang ++ ".wikipedia.org/api/rest_v1/page/media-list/"
   ++ quote title)%string.

(** [(data.get(k) or {}).get("source")] *)
Definition source_of (data : pyval) (k : string) : result pyval :=
  (x <- py_get data k ;; py_get (py_or x (PDict [])) "source")%result.

(** What [_get_from_summary] does with the parsed body. *)
Definition summary_pick (data : pyval) : result pyval :=
  (thumb <- source_of data "thumbnail" ;;
   if truthy thumb then Ok thumb
   else original <- source_of data "originalimage" ;; Ok original)%result.

Definition _get_from_summary (title lang : string)
  (hs : list (string * string)) : io pyval :=
  (res <- _request_with_retries (summary_url title lang) hs
            default_retries default_timeout ;;
   match res with
   | None => Ret PNone
   | Some r =>
       if negb (response_bool r) then Ret PNone
       else
         parsed <- try_except (data <- res_json r ;; Ret (Some data))
                     (fun _ => Ret None) ;;
         match parsed with
         | None => Ret PNone
         | Some data => lift (summary_pick data)
         end
   end)%io.

(** The inner loop [for s in srcset], from the state [(best, best_w)]. *)
Fixpoint srcset_loop (srcset : list pyval) (best : pyval) (best_w : Z)
  : result (pyval * Z) :=
  match srcset with
  | [] => Ok (best, best_w)
  | s :: rest =>
      (src <- py_get s "src" ;;
       w <- py_get s "width" ;;
       let width := py_or w (PInt 0) in
       if truthy src && isinstance_int width && (int_value width >? best_w)
       then srcset_loop rest src (int_value width)
       else srcset_loop rest best best_w)%result
  end.

(** The outer loop [for item in items]. *)
Fixpoint items_loop (items : list pyval) : result pyval :=
  match items with
  | [] => Ok PNone
  | item :: rest =>
      if negb (isinstance_dict item) then items_loop rest
      else
        (ty <- py_get item "type" ;;
         if py_ne_str ty "image" then items_loop rest
         else
           original <- source_of item "original" ;;
           if truthy original then Ok original
           else
             ss <- py_get item "srcset" ;;
             srcset <- py_iter (py_or ss (PList [])) ;;
             found <- srcset_loop srcset PNone (-1) ;;
             if truthy (fst found) then Ok (fst found) else items_loop rest)%result
  end.

(** What [_get_from_media_list] does with the parsed body. *)
Definition media_list_pick (data : pyval) : result pyval :=
  (its <- py_get data "items" ;;
   items <- py_iter (py_or its (PList [])) ;;
   items_loop items)%result.

Definition _get_from_media_list (title lang : string)
  (hs : list (string * string)) : io pyval :=
  (res <- _request_with_retries (media_list_url title lang) hs
            default_retries default_timeout ;;
   match res with
   | None => Ret PNone
   | Some r =>
       if negb (response_bool r) then Ret PNone
       else
         parsed <- try_except (data <- res_json r ;; Ret (Some data))
                     (fun _ => Ret None) ;;
         match parsed with
         | None => Ret PNone
         | Some data => lift (media_list_pick data)
         end
   end)%io.

Definition wikipedia_headers : list (string * string) :=
  [("User-Agent", "audio_to_gpt/1.0 (+https://example.com)")].

Definition _get_image_from_lang (title lang : string) : io pyval :=
  (img <- _get_from_summary title lang wikipedia_headers ;;
   if truthy img then Ret img
   else _get_from_media_list title lang wikipedia_headers)%io.

(** [for lang in langs] of [get_wikipedia_image]. *)
Fixpoint lang_loop (species_name : string) (langs : list string) : io pyval :=
  match langs with
  | [] => Ret PNone
  | lang :: rest =>
      (img <- _get_image_from_lang species_name lang ;;
       if truthy img then Ret img else lang_loop species_name rest)%io
  end.

Definition languages : list string := ["ja"; "en"].

Definition get_wikipedia_image (species_name : string) : io pyval :=
  lang_loop species_name languages.

(** ** [get_duckduckgo_image] *)

Definition dquote : ascii := "034"%char.
Definition squote : ascii := "039"%char.

Fixpoint strip_prefix (p s : string) : option string :=
  match p, s with
  | EmptyString, _ => Some s
  | String a p', String b s' => if (a =? b)%char then strip_prefix p' s' else None
  | String _ _, EmptyString => None
  end.

(** [re.search]: the match at the leftmost position that has one. *)
Fixpoint re_search (match_at : string -> option string) (s : string)
  : option string :=
  match match_at s with
  | Some g => Some g
  | None =>
      match s with
      | EmptyString => None
      | String _ rest => re_search match_at rest
      end
  end.

Section Scrape.

(** The class [\w]. *)
Variable word_char : ascii -> bool.

(** [[\w-]] *)
Definition token_char (c : ascii) : bool := word_char c || (c =? "-")%char.

(** The group [([\w-]+)] followed by one character of [closing]: the
    longest run that is, as the greedy [+] backtracks from the longest. *)
Fixpoint match_token (closing : ascii -> bool) (s : string) : option string :=
  match s with
  | EmptyString => None
  | String c rest =>
      if token_char c then
        match match_token closing rest with
        | Some t => Some (String c t)
        | None =>
            match rest with
            | String q _ =>
                if closing q then Some (String c EmptyString) else None
            | EmptyString => None
            end
        end
      else None
  end.

Definition is_quote (c : ascii) : bool := (c =? squote)%char || (c =? dquote)%char.

(** The first pattern at the start of [s]: [vqd=], a quote of either kind,
    the token, a quote of either kind. *)
Definition match_vqd_assign (s : string) : option string :=
  match strip_prefix "vqd=" s with
  | Some (String q rest) => if is_quote q then match_token is_quote rest else None
  | _ => None
  end.

(** The second pattern at the start of [s]: the key [vqd] in double quotes,
    a colon, and the token in double quotes. *)
Definition match_vqd_json (s : string) : option string :=
  match strip_prefix (String dquote ("vqd" ++ String dquote (":" ++ String dquote ""))) s with
  | Some rest => match_token (fun c => (c =? dquote)%char) rest
  | None => None
  end.

(** The token of a page body: the first pattern, else the second. *)
Definition find_vqd (body : string) : option string :=
  match re_search match_vqd_assign body with
  | Some g => Some g
  | None => re_search match_vqd_json body
  end.

Definition duckduckgo_headers : list (string * string) :=
  [("User-Agent",
    "Mozilla/5.0 (Macintosh; Intel Mac OS X 10_15_7) AppleWebKit/537.36 (KHTML, like Gecko) Chrome/124.0 Safari/537.36")].

Definition search_url (q : string) : string :=
  ("https://duckduckgo.com/?q=" ++ q ++ "&iax=images&ia=images")%string.

Definition api_url (q vqd : string) : string :=
  ("https://duckduckgo.com/i.js?l=ja-jp&o=json&q=" ++ q ++ "&vqd=" ++ vqd
   ++ "&f=,,,&p=1")%string.

(** What the code does with the parsed image results. *)
Definition results_pick (data : pyval) : result pyval :=
  (rs <- py_get data "results" ;;
   let results := py_or rs (PList []) in
   if negb (truthy results) then Ok PNone
   else
     first <- py_index0 results ;;
     image <- py_get first "image" ;;
     if truthy image then Ok image else py_get first "thumbnail")%result.

(** The second request and what follows it. *)
Definition fetch_results (q vqd : string) : io pyval :=
  (r2 <- requests_get (api_url q vqd) duckduckgo_headers (PInt 8) ;;
   if negb (status_code r2 =? 200) then Ret PNone
   else data <- res_json r2 ;; lift (results_pick data))%io.

Definition get_duckduckgo_image (query : string) : io pyval :=
  try_except
    (let q := quote query in
     r1 <- requests_get (search_url q) duckduckgo_headers (PInt 8) ;;
     if negb (status_code r1 =? 200) then Ret PNone
     else
       match find_vqd (text r1) with
       | None => Ret PNone
       | Some vqd => fetch_results q vqd
       end)%io
    (fun _ => Ret PNone).

(** ** [get_bird_image] *)

Definition get_bird_image (species_name : string) : io pyval :=
  (img <- get_wikipedia_image species_name ;;
   if truthy img then Ret img else get_duckduckgo_image species_name)%io.

End Scrape.

(** The word characters of ASCII: letters, digits and the underscore. *)
Definition ascii_word (c : ascii) : bool := is_alnum c || (c =? "_")%char.

(** ** Reading a trace *)

(** An attempt fails when [requests.get] raises or the status is not 200. *)
Definition failed (r : result response) : bool :=
  match r with
  | Ok resp => negb (status_code resp =? 200)
  | Raise _ => true
  end.

Fixpoint gets (t : trace) : list (request * result response) :=
  match t with
  | [] => []
  | EvGet rq r :: t' => (rq, r) :: gets t'
  | EvSleep _ :: t' => gets t'
  end.

Fixpoint sleeps (t : trace) : list spec_float :=
  match t with
  | [] => []
  | EvGet _ _ :: t' => sleeps t'
  | EvSleep d :: t' => d :: sleeps t'
  end.


(** The URLs requested in a trace, in order. *)
Definition urls (t : trace) : list string := map (fun g => url (fst g)) (gets t).

(** The runs of the fetcher-with-retry from attempt number [attempt] on:
    a 200 answer ends the run with that response; a failed attempt before
    the last is followed by its backoff sleep and the next attempt; the
    last attempt, failed, ends the run with no sleep and no response. *)
Inductive retry_run (rq : request) (retries : Z)
  : Z -> trace -> option response -> Prop :=
| retry_hit attempt resp :
    status_code resp = 200 ->
    retry_run rq retries attempt [EvGet rq (Ok resp)] (Some resp)
| retry_exhausted attempt r :
    failed r = true -> attempt = retries ->
    retry_run rq retries attempt [EvGet rq r] None
| retry_again attempt r t out :
    failed r = true -> attempt < retries ->
    retry_run rq retries (attempt + 1) t out ->
    retry_run rq retries attempt (EvGet rq r :: EvSleep (backoff attempt) :: t) out.

(** The sleeps of [n] failed attempts in a row, from attempt number
    [attempt] on: [0.4 * (attempt + 1)], [0.4 * (attempt + 2)], ... *)
Fixpoint backoffs (attempt : Z) (n : nat) : list spec_float :=
  match n with
  | O => []
  | S n' => backoff attempt :: backoffs (attempt + 1) n'
  end.

(** ** The media list as the specification describes it *)



Definition nonempty (s : string) : bool := negb (s =? "")%string.



(** The field [k.source] of a JSON object read as an optional URL: absent
    when [k] or its [source] is missing or null, else a non-empty string. *)
Definition view_source (d : list (string * pyval)) (k : string)
  : option (option string) :=
  match dict_get d k with
  | None | Some PNone => Some None
  | Some (PDict o) =>
      match dict_get o "source" with
      | None | Some PNone => Some None
      | Some (PStr u) => if nonempty u then Some (Some u) else None
      | Some _ => None
      end
  | Some _ => None
  end.





(** A URL or the absence value as the code returns it. *)
Definition url_or_none (o : option string) : pyval :=
  match o with
  | Some u => PStr u
  | None => PNone
  end.

(** What a variant object counts as in the selection: its [src] and the
    integer its width compares as, when [src] is true and the width, with a
    false value replaced by 0, is an instance of [int]. *)
Definition eligible (s : pyval) : option (pyval * Z) :=
  match s with
  | PDict d =>
      let src := dict_get_or_none d "src" in
      let width := py_or (dict_get_or_none d "width") (PInt 0) in
      if truthy src && isinstance_int width then Some (src, int_value width)
      else None
  | _ => None
  end.

(** What the two encyclopedia lookups make of the outcome of their fetch:
    no response and a body that does not parse are misses, a parsed body
    goes to [pick]. *)
Definition parsed_value (pick : pyval -> result pyval) (out : option response)
  : result pyval :=
  match out with
  | None => Ok PNone
  | Some r =>
      if response_bool r then
        match json r with
        | Some data => pick data
        | None => Ok PNone
        end
      else Ok PNone
  end.

(** The value of the scrape fallback once its second request is answered
    by [r2]: every exception from there on is caught and ends in absence. *)
Definition scrape_value (r2 : result response) : pyval :=
  match r2 with
  | Ok resp =>
      if status_code resp =? 200 then
        match json resp with
        | Some data =>
            match results_pick data with
            | Ok v => v
            | Raise _ => PNone
            end
        | None => PNone
        end
      else PNone
  | Raise _ => PNone
  end.

(** The two requests of the scrape fallback. *)
Definition search_request (query : string) : request :=
  mkRequest (search_url (quote query)) duckduckgo_headers (PInt 8).

Definition results_request (query vqd : string) : request :=
  mkRequest (api_url (quote query) vqd) duckduckgo_headers (PInt 8).


(** ** Sample upstreams *)

Definition ok_json (body : pyval) : response := mkResponse 200 "" (Some body).
Definition ok_page (body : string) : response := mkResponse 200 body None.
Definition not_found : response := mkResponse 404 "" None.

(** An upstream that answers the requests of a run in turn from a script
    and refuses the connection once the script is used up. *)
Definition scripted (script : list (result response)) : network :=
  fun h _ => nth (List.length (gets h)) script (Raise RequestException).

Fixpoint lookup_url (table : list (string * result response)) (u : string)
  : result response :=
  match table with
  | [] => Ok not_found
  | (u', r) :: rest => if (u' =? u)%string then r else lookup_url rest u
  end.

(** An upstream that answers by URL alone, with a 404 for a URL that is not
    in its table. *)
Definition by_url (table : list (string * result response)) : network :=
  fun _ rq => lookup_url table (url rq).

(** A media list of three items: a video, an image with two variants and no
    original source, an image with an original source. *)
Definition sample_items : list pyval :=
  [PDict [("type", PStr "video")];
   PDict [("type", PStr "image");
          ("srcset",
           PList [PDict [("src", PStr "a"); ("width", PInt 100)];
                  PDict [("src", PStr "b"); ("width", PInt 300)]])];
   PDict [("type", PStr "image");
          ("original", PDict [("source", PStr "c")])]].


(** A summary body with a thumbnail. *)
Definition sample_summary (u : string) : pyval :=
  PDict [("title", PStr "suzume");
         ("thumbnail", PDict [("source", PStr u); ("width", PInt 320)])].

(** An upstream that knows the species in the primary language. *)
Definition sample_primary_net : network :=
  by_url [(summary_url "suzume" "ja",
           Ok (ok_json (sample_summary "https://upload.example/ja.jpg")))].

(** An upstream that knows the species in the fallback language only. *)
Definition sample_fallback_net : network :=
  by_url [(summary_url "suzume" "en",
           Ok (ok_json (sample_summary "https://upload.example/en.jpg")))].

(** Two summary bodies of an unexpected shape: a thumbnail that is a string
    instead of an object, and a body that is a list. *)
Definition odd_summary_thumbnail : pyval :=
  PDict [("thumbnail", PStr "https://upload.example/t.jpg")].

Definition odd_summary_list : pyval := PList [PStr "not found"].

(** ** Readings used by the further properties *)

(** The request of an encyclopedia lookup of the URL [u]. *)
Definition wikipedia_request (u : string) : request :=
  mkRequest u wikipedia_headers default_timeout.

(** The requests the scrape path can make for a name. *)
Definition is_scrape_request (name : string) (rq : request) : Prop :=
  rq = search_request name \/ exists vqd, rq = results_request name vqd.

(** The events of one encyclopedia lookup: at most three requests, all of
    them [rq], and at most two sleeps, each of 0.4 or 0.8 seconds. *)
Definition lookup_trace (rq : request) (t : trace) : Prop :=
  (List.length (gets t) <= 3)%nat
  /\ (List.length (sleeps t) <= 2)%nat
  /\ Forall (fun d => d = float_0_4 \/ d = float_0_8) (sleeps t)
  /\ Forall (fun g => fst g = rq) (gets t).

(** The events of the scrape path: at most two requests, no sleep. *)
Definition scrape_trace (name : string) (t : trace) : Prop :=
  (List.length (gets t) <= 2)%nat
  /\ sleeps t = []
  /\ Forall (fun g => is_scrape_request name (fst g)) (gets t).






(** An upstream that knows nothing of the species but offers one scraped
    image. *)
Definition sample_scrape_net : network :=
  by_url [(search_url (quote "suzume"), Ok (ok_page "<script>vqd='4-123_x';</script>"));
          (api_url (quote "suzume") "4-123_x",
           Ok (ok_json (PDict [("results",
                 PList [PDict [("image", PStr "https://img.example/1.jpg")]])])))].

(** ** [_extract_json] *)

Definition backtick : ascii := "096"%char.
Definition open_brace : ascii := "123"%char.
Definition close_brace : ascii := "125"%char.

(** The fence that closes a block: three backticks. *)
Definition fence : string := String backtick (String backtick (String backtick "")).

(** The opening of a block: the fence and the word json. *)
Definition fence_json : string := (fence ++ "json")%string.

(** A text in braces. *)
Definition braced (body : string) : string :=
  String open_brace (body ++ String close_brace "")%string.

(** [.*?] and what has to follow it, [k]: the shortest run of any
    characters (the patterns are compiled with [re.DOTALL]) after which [k]
    matches, with the match of [k]. *)
Fixpoint lazy_any {A : Type} (k : string -> option A) (s : string)
  : option (string * A) :=
  match k s with
  | Some r => Some (EmptyString, r)
  | None =>
      match s with
      | EmptyString => None
      | String c rest =>
          match lazy_any k rest with
          | Some (run, r) => Some (String c run, r)
          | None => None
          end
      end
  end.

(** [.*] before the closing brace of the second pattern: the longest run
    of any characters that a closing brace follows. *)
Fixpoint greedy_to_brace (s : string) : option string :=
  match s with
  | EmptyString => None
  | String c rest =>
      match greedy_to_brace rest with
      | Some run => Some (String c run)
      | None => if (c =? close_brace)%char then Some EmptyString else None
      end
  end.

(** The second pattern at the start of [s]: an opening brace, anything, a
    closing brace, as long as possible; the whole match. *)
Definition match_braces (s : string) : option string :=
  match s with
  | String c rest =>
      if (c =? open_brace)%char then option_map braced (greedy_to_brace rest)
      else None
  | EmptyString => None
  end.

Section ExtractJson.

(** The class [\s]. *)
Variable space_char : ascii -> bool.

(** [json.loads] *)
Variable json_loads : string -> result pyval.

(** [\s*] and what has to follow it, [k]: the longest run of spaces first,
    the shorter ones on backtracking. *)
Fixpoint after_spaces {A : Type} (k : string -> option A) (s : string)
  : option A :=
  match s with
  | EmptyString => k s
  | String c rest =>
      if space_char c then
        match after_spaces k rest with
        | Some r => Some r
        | None => k s
        end
      else k s
  end.

(** The end of the first pattern: a closing brace, spaces, the fence. *)
Definition match_block_end (s : string) : option unit :=
  match s with
  | String c rest =>
      if (c =? close_brace)%char then
        after_spaces (fun s' => option_map (fun _ => tt) (strip_prefix fence s')) rest
      else None
  | EmptyString => None
  end.

(** The group of the first pattern from its opening brace on. *)
Definition match_block_body (s : string) : option string :=
  match s with
  | String c rest =>
      if (c =? open_brace)%char then
        option_map (fun found => braced (fst found)) (lazy_any match_block_end rest)
      else None
  | EmptyString => None
  end.

(** The first pattern at the start of [s]: the fence, the word json,
    spaces, the shortest text in braces that spaces and the fence follow;
    the group in braces. *)
Definition match_fenced (s : string) : option string :=
  match strip_prefix fence_json s with
  | Some rest => after_spaces match_block_body rest
  | None => None
  end.

Definition _extract_json (text : pyval) : result pyval :=
  match text with
  | PStr s =>
      match re_search match_fenced s with
      | Some g => json_loads g
      | None =>
          match re_search match_braces s with
          | Some g => json_loads g
          | None => Ok PNone
          end
      end
  | _ => Ok PNone
  end.

End ExtractJson.

(** The white space of ASCII: space, tab, line feed, vertical tab, form
    feed, carriage return. *)
Definition ascii_space (c : ascii) : bool :=
  let n := nat_of_ascii c in
  ((n =? 32) || (9 <=? n) && (n <=? 13))%nat.

(** Whether the character [c] occurs in [s]. *)
Fixpoint occurs (c : ascii) (s : string) : bool :=
  match s with
  | EmptyString => false
  | String x rest => (x =? c)%char || occurs c rest
  end.

(** Whether [s] is made of characters of the class [p] only. *)
Fixpoint all_chars (p : ascii -> bool) (s : string) : bool :=
  match s with
  | EmptyString => true
  | String x rest => p x && all_chars p rest
  end.

(** ** [analyze_bird_sound], from the content of the model's message on *)

(** [[p.get("text") for p in content if isinstance(p, dict) and "text" in p]] *)
Fixpoint text_parts (content : list pyval) : list pyval :=
  match content with
  | [] => []
  | PDict d :: rest =>
      match dict_get d "text" with
      | Some v => v :: text_parts rest
      | None => text_parts rest
      end
  | _ :: rest => text_parts rest
  end.

(** The content after the test for a list: the first text part of a list,
    the empty string for a list with none, anything else as it is. *)
Definition message_text (content : pyval) : pyval :=
  match content with
  | PList l =>
      match text_parts l with
      | [] => PStr ""
      | first :: _ => first
      end
  | _ => content
  end.

(** [d.get(k, default)] *)
Definition dict_get_default (d : list (string * pyval)) (k : string)
  (default : pyval) : pyval :=
  match dict_get d k with
  | Some v => v
  | None => default
  end.

Section Analyze.

(** The class [\s], [json.loads], [str.strip] and [float] on a string
    ([None] when it raises). *)
Variable space_char : ascii -> bool.
Variable json_loads : string -> result pyval.
Variable strip : string -> string.
Variable float_of_str : string -> option spec_float.

(** [v.strip()], [None] when [v] has no such method. *)
Definition py_strip (v : pyval) : option string :=
  match v with
  | PStr s => Some (strip s)
  | _ => None
  end.

(** [float(v)], [None] when it raises: an integer too large for a float,
    a string that is no number, or a value of another type. *)
Definition py_float (v : pyval) : option spec_float :=
  match v with
  | PFloat f => Some f
  | PInt n =>
      match float_of_int n with
      | S754_infinity _ => None
      | f => Some f
      end
  | PBool b => Some (float_of_int (if b then 1 else 0))
  | PStr s => float_of_str s
  | _ => None
  end.

(** The three fields of a parsed reply; [None] when reading one raises. *)
Definition reply_fields (result : pyval) : option pyval :=
  match result with
  | PDict d =>
      match py_strip (dict_get_default d "species" (PStr "")),
            py_float (dict_get_default d "confidence" (PFloat (S754_zero false))),
            py_strip (dict_get_default d "description" (PStr "")) with
      | Some species, Some confidence, Some description =>
          Some (PDict [("species", PStr species);
                       ("confidence", PFloat confidence);
                       ("description", PStr description)])
      | _, _, _ => None
      end
  | _ => None
  end.

(** What [analyze_bird_sound] returns for the content of the message: the
    body of its [try] from the test for a list on, every exception caught
    and turned into [None]. *)
Definition analyze_reply (content : pyval) : pyval :=
  match _extract_json space_char json_loads (message_text content) with
  | Ok result =>
      if negb (truthy result) then PNone
      else
        match reply_fields result with
        | Some analysis => analysis
        | None => PNone
        end
  | Raise _ => PNone
  end.

End Analyze.

(** * Properties *)

(** ** Running composed commands *)

Lemma exec_bind {A B : Type} (net : network) (m : io A) (f : A -> io B) :
  forall h,
    exec net h (bind m f) =
    match exec net h m with
    | (Ok a, t) => let '(out, t') := exec net (h ++ t) (f a) in (out, t ++ t')
    | (Raise e, t) => (Raise e, t)
    end.
Proof.
  induction m as [a | e | rq k IH | d k IH]; intros h; simpl.
  - rewrite app_nil_r. now destruct (exec net h (f a)).
  - reflexivity.
  - rewrite IH.
    destruct (exec net (h ++ [EvGet rq (net h rq)]) (k (net h rq))) as [[a | e] t];
      [ | reflexivity ].
    rewrite <- app_assoc. simpl.
    now destruct (exec net (h ++ EvGet rq (net h rq) :: t) (f a)).
  - rewrite IH.
    destruct (exec net (h ++ [EvSleep d]) k) as [[a | e] t]; [ | reflexivity ].
    rewrite <- app_assoc. simpl.
    now destruct (exec net (h ++ EvSleep d :: t) (f a)).
Qed.

Lemma exec_try_except {A : Type} (net : network) (m : io A) (hd : exn -> io A) :
  forall h,
    exec net h (try_except m hd) =
    match exec net h m with
    | (Ok a, t) => (Ok a, t)
    | (Raise e, t) => let '(out, t') := exec net (h ++ t) (hd e) in (out, t ++ t')
    end.
Proof.
  induction m as [a | e | rq k IH | d k IH]; intros h; simpl.
  - reflexivity.
  - rewrite app_nil_r. now destruct (exec net h (hd e)).
  - rewrite IH.
    destruct (exec net (h ++ [EvGet rq (net h rq)]) (k (net h rq))) as [[a | e] t];
      [ reflexivity | ].
    rewrite <- app_assoc. simpl.
    now destruct (exec net (h ++ EvGet rq (net h rq) :: t) (hd e)).
  - rewrite IH.
    destruct (exec net (h ++ [EvSleep d]) k) as [[a | e] t]; [ reflexivity | ].
    rewrite <- app_assoc. simpl.
    now destruct (exec net (h ++ EvSleep d :: t) (hd e)).
Qed.

Lemma exec_lift {A : Type} (net : network) (h : trace) (m : result A) :
  exec net h (lift m) = (m, []).
Proof. now destruct m. Qed.

(** ** The fetcher-with-retry *)

(** One attempt is one request; its outcome is the response exactly when
    the answer is a 200. *)
Lemma exec_attempt_get (net : network) (h : trace) u hs tmo :
  exec net h (attempt_get u hs tmo) =
  (Ok (match net h (mkRequest u hs tmo) with
       | Ok resp => if status_code resp =? 200 then Some resp else None
       | Raise _ => None
       end),
   [EvGet (mkRequest u hs tmo) (net h (mkRequest u hs tmo))]).
Proof.
  unfold attempt_get, requests_get. simpl.
  destruct (net h (mkRequest u hs tmo)) as [resp | e]; simpl; [ | reflexivity ].
  now destruct (status_code resp =? 200).
Qed.

Lemma attempt_outcome_failed (r : result response) :
  failed r = true ->
  match r with
  | Ok resp => if status_code resp =? 200 then Some resp else None
  | Raise _ => None
  end = None.
Proof.
  destruct r as [resp | e]; simpl; [ | reflexivity ].
  now destruct (status_code resp =? 200).
Qed.

(** A 200 answer ends the loop at once. *)
Lemma exec_retry_hit (net : network) u hs retries tmo n attempt h resp :
  net h (mkRequest u hs tmo) = Ok resp -> status_code resp = 200 ->
  exec net h (retry_loop u hs retries tmo (S n) attempt)
  = (Ok (Some resp), [EvGet (mkRequest u hs tmo) (Ok resp)]).
Proof.
  intros Hr H200. cbn [retry_loop].
  rewrite exec_bind, exec_attempt_get, Hr, H200. reflexivity.
Qed.

(** A failed attempt before the last sleeps and goes on. *)
Lemma exec_retry_again (net : network) u hs retries tmo n attempt h :
  let rq := mkRequest u hs tmo in
  failed (net h rq) = true -> attempt < retries ->
  exec net h (retry_loop u hs retries tmo (S n) attempt)
  = (fst (exec net (h ++ [EvGet rq (net h rq); EvSleep (backoff attempt)])
            (retry_loop u hs retries tmo n (attempt + 1))),
     EvGet rq (net h rq) :: EvSleep (backoff attempt)
       :: snd (exec net (h ++ [EvGet rq (net h rq); EvSleep (backoff attempt)])
                 (retry_loop u hs retries tmo n (attempt + 1)))).
Proof.
  intros rq Hf Hlt. subst rq. cbn [retry_loop].
  rewrite exec_bind, exec_attempt_get, (attempt_outcome_failed _ Hf).
  apply Z.ltb_lt in Hlt. rewrite Hlt.
  unfold time_sleep. cbn [bind exec app]. rewrite <- app_assoc. cbn [app].
  now destruct (exec net (h ++ [EvGet (mkRequest u hs tmo) (net h (mkRequest u hs tmo));
                                 EvSleep (backoff attempt)])
                  (retry_loop u hs retries tmo n (attempt + 1))).
Qed.

(** The last attempt, failed, ends the loop without a sleep. *)
Lemma exec_retry_last (net : network) u hs retries tmo attempt h :
  let rq := mkRequest u hs tmo in
  failed (net h rq) = true -> retries <= attempt ->
  exec net h (retry_loop u hs retries tmo 1 attempt)
  = (Ok None, [EvGet rq (net h rq)]).
Proof.
  intros rq Hf Hge. subst rq. cbn [retry_loop].
  rewrite exec_bind, exec_attempt_get, (attempt_outcome_failed _ Hf).
  apply Z.ltb_ge in Hge. rewrite Hge. reflexivity.
Qed.

Lemma failed_or_hit (r : result response) :
  failed r = true \/ exists resp, r = Ok resp /\ status_code resp = 200.
Proof.
  destruct r as [resp | e]; simpl; [ | now left ].
  destruct (Z.eqb_spec (status_code resp) 200); [ right; eauto | now left ].
Qed.

Lemma retry_loop_run (net : network) u hs retries tmo :
  forall n attempt h,
    (0 < n)%nat -> Z.of_nat n = retries + 1 - attempt ->
    exists out t,
      exec net h (retry_loop u hs retries tmo n attempt) = (Ok out, t)
      /\ retry_run (mkRequest u hs tmo) retries attempt t out
      /\ (List.length (gets t) <= n)%nat.
Proof.
  induction n as [ | n IH]; intros attempt h Hpos Hn; [ lia | ].
  set (rq := mkRequest u hs tmo).
  destruct (failed_or_hit (net h rq)) as [Hf | (resp & Hr & H200)].
  - destruct (Z.lt_ge_cases attempt retries) as [Hlt | Hge].
    + destruct (IH (attempt + 1) (h ++ [EvGet rq (net h rq); EvSleep (backoff attempt)]))
        as (out & t & He & Hrun & Hlen); [ lia | lia | ].
      rewrite exec_retry_again by assumption. fold rq. rewrite He.
      exists out, (EvGet rq (net h rq) :: EvSleep (backoff attempt) :: t).
      repeat split; [ now apply retry_again | simpl; lia ].
    + assert (n = 0%nat) by lia. subst n.
      rewrite exec_retry_last by assumption.
      exists None, [EvGet rq (net h rq)].
      repeat split; [ apply retry_exhausted; [ exact Hf | lia ] | simpl; lia ].
  - rewrite (exec_retry_hit _ _ _ _ _ _ _ _ _ Hr H200).
    exists (Some resp), [EvGet rq (Ok resp)].
    repeat split; [ now constructor | simpl; lia ].
Qed.

Lemma backoff_0 : backoff 0 = float_0_4.
Proof. reflexivity. Qed.

Lemma backoff_1 : backoff 1 = float_0_8.
Proof. reflexivity. Qed.

(** C5. The fetcher-with-retry never raises; with [0 <= retries] its run
    is a [retry_run] from attempt 0: every attempt is one GET of the same
    request, a 200 answer is returned at once, any other status and any
    exception is a failed attempt, a failed attempt before the last is
    followed by its sleep and the last one by none, and there are at most
    [retries + 1] GETs.  With the two retries of the default, when the first
    two attempts fail and the third is answered 200, that response is
    returned after exactly two sleeps, of 0.4 and then 0.8 seconds. *)
Theorem request_with_retries_contract :
  forall (net : network) (h : trace) u hs tmo,
    let rq := mkRequest u hs tmo in
    (forall retries,
        0 <= retries ->
        exists out t,
          exec net h (_request_with_retries u hs retries tmo) = (Ok out, t)
          /\ retry_run rq retries 0 t out
          /\ Z.of_nat (List.length (gets t)) <= retries + 1)
    /\ (forall r1 r2 resp,
          net h rq = r1 -> failed r1 = true ->
          net (h ++ [EvGet rq r1; EvSleep float_0_4]) rq = r2 ->
          failed r2 = true ->
          net (h ++ [EvGet rq r1; EvSleep float_0_4;
                     EvGet rq r2; EvSleep float_0_8]) rq = Ok resp ->
          status_code resp = 200 ->
          exec net h (_request_with_retries u hs default_retries tmo)
          = (Ok (Some resp),
             [EvGet rq r1; EvSleep float_0_4; EvGet rq r2; EvSleep float_0_8;
              EvGet rq (Ok resp)])).
Proof.
  intros net h u hs tmo rq. split.
  - intros retries Hge. unfold _request_with_retries.
    destruct (retry_loop_run net u hs retries tmo (Z.to_nat (retries + 1)) 0 h)
      as (out & t & He & Hrun & Hlen); [ lia | lia | ].
    exists out, t. repeat split; [ exact He | exact Hrun | lia ].
  - intros r1 r2 resp H1 Hf1 H2 Hf2 H3 H200.
    unfold _request_with_retries, default_retries.
    change (Z.to_nat (2 + 1)) with 3%nat.
    rewrite exec_retry_again; fold rq; rewrite ?H1; [ | exact Hf1 | lia ].
    rewrite backoff_0.
    rewrite exec_retry_again; fold rq; rewrite ?H2; [ | exact Hf2 | lia ].
    change (0 + 1) with 1. rewrite backoff_1.
    rewrite <- !app_assoc. cbn [app].
    rewrite (exec_retry_hit _ _ _ _ _ _ _ _ _ H3 H200).
    reflexivity.
Qed.

Lemma request_with_retries_contract_witness :
  exec (scripted [Raise RequestException; Ok not_found; Ok (ok_json (PDict []))]) []
    (_request_with_retries "u" [] default_retries default_timeout)
  = (Ok (Some (ok_json (PDict []))),
     [EvGet (mkRequest "u" [] default_timeout) (Raise RequestException);
      EvSleep float_0_4;
      EvGet (mkRequest "u" [] default_timeout) (Ok not_found);
      EvSleep float_0_8;
      EvGet (mkRequest "u" [] default_timeout) (Ok (ok_json (PDict [])))]).
Proof.
  apply (proj2 (request_with_retries_contract
                  (scripted [Raise RequestException; Ok not_found; Ok (ok_json (PDict []))])
                  [] "u" [] default_timeout));
    reflexivity.
Defined.

(** ** What a run of the fetcher-with-retry looks like *)

Lemma retry_run_gets rq retries attempt t out :
  retry_run rq retries attempt t out ->
  (1 <= List.length (gets t))%nat /\ Forall (fun g => fst g = rq) (gets t).
Proof.
  induction 1 as [a resp H200 | a r Hf Ha | a r t out Hf Ha Hrun [IHlen IHall]]; simpl.
  - split; [ lia | repeat constructor ].
  - split; [ lia | repeat constructor ].
  - split; [ lia | constructor; [ reflexivity | exact IHall ] ].
Qed.

Lemma retry_run_sleeps rq retries attempt t out :
  retry_run rq retries attempt t out ->
  sleeps t = backoffs attempt (List.length (gets t) - 1).
Proof.
  induction 1 as [a resp H200 | a r Hf Ha | a r t out Hf Ha Hrun IH]; simpl;
    [ reflexivity | reflexivity | ].
  destruct (retry_run_gets _ _ _ _ _ Hrun) as [Hlen _].
  rewrite Nat.sub_0_r, IH.
  destruct (List.length (gets t)) as [ | n]; [ lia | ].
  simpl. now rewrite Nat.sub_0_r.
Qed.

Lemma retry_run_count rq retries attempt t out :
  retry_run rq retries attempt t out ->
  match out with
  | Some resp => status_code resp = 200
  | None => Z.of_nat (List.length (gets t)) = retries + 1 - attempt
  end.
Proof.
  induction 1 as [a resp H200 | a r Hf Ha | a r t out Hf Ha Hrun IH]; simpl.
  - exact H200.
  - lia.
  - destruct out; [ exact IH | lia ].
Qed.

(** With the default policy the fetcher returns, and what it returns is
    absence or a response of status 200; every request of the run is the
    one request it was given. *)
Lemma default_fetch_run (net : network) (h : trace) u hs tmo :
  exists out t,
    exec net h (_request_with_retries u hs default_retries tmo) = (Ok out, t)
    /\ retry_run (mkRequest u hs tmo) default_retries 0 t out
    /\ Forall (fun x => x = u) (urls t)
    /\ match out with
       | Some resp => status_code resp = 200 /\ response_bool resp = true
       | None => True
       end.
Proof.
  destruct (retry_loop_run net u hs default_retries tmo 3 0 h)
    as (out & t & He & Hrun & _); [ lia | reflexivity | ].
  exists out, t. repeat split; try assumption.
  - destruct (retry_run_gets _ _ _ _ _ Hrun) as [_ Hall].
    unfold urls. apply Forall_map.
    eapply Forall_impl; [ | exact Hall ]. intros [rq r] Hrq. simpl in *. now subst rq.
  - pose proof (retry_run_count _ _ _ _ _ Hrun) as Hc.
    destruct out as [resp | ]; [ | exact I ].
    split; [ exact Hc | ]. unfold response_bool. rewrite Hc. reflexivity.
Qed.

(** ** The scrape fallback *)

Lemma exec_requests_get (net : network) (h : trace) u hs tmo :
  exec net h (requests_get u hs tmo)
  = (net h (mkRequest u hs tmo), [EvGet (mkRequest u hs tmo) (net h (mkRequest u hs tmo))]).
Proof.
  unfold requests_get. cbn [exec]. now rewrite exec_lift.
Qed.

Lemma exec_fetch_results (net : network) (h : trace) q vqd :
  let rq2 := mkRequest (api_url q vqd) duckduckgo_headers (PInt 8) in
  exec net h (try_except (fetch_results q vqd) (fun _ => Ret PNone))
  = (Ok (scrape_value (net h rq2)), [EvGet rq2 (net h rq2)]).
Proof.
  intros rq2. subst rq2. unfold fetch_results, scrape_value.
  rewrite exec_try_except, exec_bind, exec_requests_get.
  destruct (net h _) as [resp | e]; [ | reflexivity ].
  destruct (status_code resp =? 200); [ | reflexivity ].
  cbn [negb]. rewrite exec_bind. unfold res_json.
  destruct (json resp) as [data | ]; [ | reflexivity ].
  cbn [exec]. rewrite exec_lift.
  now destruct (results_pick data).
Qed.

Lemma dict_get_or_none_some d k v :
  dict_get d k = Some v -> dict_get_or_none d k = v.
Proof. unfold dict_get_or_none. now intros ->. Qed.




(** The whole of [get_duckduckgo_image] in closed form. *)
Lemma exec_get_duckduckgo_image (word_char : ascii -> bool) (net : network)
  (h : trace) (query : string) :
  exec net h (get_duckduckgo_image word_char query) =
  match net h (search_request query) with
  | Ok r1 =>
      if status_code r1 =? 200 then
        match find_vqd word_char (text r1) with
        | Some vqd =>
            let r2 := net (h ++ [EvGet (search_request query) (Ok r1)])
                        (results_request query vqd) in
            (Ok (scrape_value r2),
             [EvGet (search_request query) (Ok r1);
              EvGet (results_request query vqd) r2])
        | None => (Ok PNone, [EvGet (search_request query) (Ok r1)])
        end
      else (Ok PNone, [EvGet (search_request query) (Ok r1)])
  | Raise e => (Ok PNone, [EvGet (search_request query) (Raise e)])
  end.
Proof.
  unfold get_duckduckgo_image, search_request, results_request.
  set (q := quote query).
  rewrite exec_try_except, exec_bind, exec_requests_get.
  destruct (net h _) as [r1 | e]; [ | reflexivity ].
  destruct (status_code r1 =? 200); [ | reflexivity ].
  cbn [negb]. destruct (find_vqd word_char (text r1)) as [vqd | ]; [ | reflexivity ].
  pose proof (exec_fetch_results net
                (h ++ [EvGet (mkRequest (search_url q) duckduckgo_headers (PInt 8)) (Ok r1)])
                q vqd) as Hf.
  cbv zeta in Hf. rewrite exec_try_except in Hf.
  destruct (exec net _ (fetch_results q vqd)) as [[v | e] t].
  - inversion Hf; subst. reflexivity.
  - destruct (exec net _ (Ret PNone)) as [out t'] eqn:He.
    cbn [exec] in He. inversion He; subst. rewrite app_nil_r in Hf.
    inversion Hf; subst. cbn [exec]. rewrite !app_nil_r. reflexivity.
Qed.



(** ** The backoff schedule *)

(** C6. The sleep after the failed attempt number [i] (from 0) lasts
    [0.4 * (i + 1)] seconds: the sleeps of a run are [backoffs 0 n] for the
    [n] failed attempts that were retried.  The first two are the binary64
    values of 0.4 and 0.8, so under the default policy the sleeps of a run
    are the first [gets - 1] of 0.4, 0.8, and are exactly 0.4 then 0.8 when
    all three attempts fail; the two floats are within half a unit in the
    last place of 4/10 and 8/10.  The scrape fallback never sleeps and
    makes at most two requests. *)
Theorem backoff_schedule :
  (forall (net : network) (h : trace) u hs tmo retries,
      0 <= retries ->
      sleeps (snd (exec net h (_request_with_retries u hs retries tmo)))
      = backoffs 0
          (List.length (gets (snd (exec net h (_request_with_retries u hs retries tmo)))) - 1))
  /\ backoffs 0 2 = [float_0_4; float_0_8]
  /\ (Qabs (Q_of_float float_0_4 - 0.4) <= Qpower 2 (-55))%Q
  /\ (Qabs (Q_of_float float_0_8 - 0.8) <= Qpower 2 (-54))%Q
  /\ (forall (net : network) (h : trace) u hs tmo,
        sleeps (snd (exec net h (_request_with_retries u hs default_retries tmo)))
        = firstn
            (List.length
               (gets (snd (exec net h (_request_with_retries u hs default_retries tmo)))) - 1)
            [float_0_4; float_0_8]
        /\ (fst (exec net h (_request_with_retries u hs default_retries tmo)) = Ok None ->
            sleeps (snd (exec net h (_request_with_retries u hs default_retries tmo)))
            = [float_0_4; float_0_8]))
  /\ (forall (word_char : ascii -> bool) (net : network) (h : trace) query,
        sleeps (snd (exec net h (get_duckduckgo_image word_char query))) = []
        /\ (List.length (gets (snd (exec net h (get_duckduckgo_image word_char query))))
            <= 2)%nat).
Proof.
  split; [ | split; [ reflexivity | split; [ | split; [ | split ] ] ] ].
  2, 3: unfold Qle; vm_compute; discriminate.
  - intros net h u hs tmo retries Hge.
    destruct (retry_loop_run net u hs retries tmo (Z.to_nat (retries + 1)) 0 h)
      as (out & t & He & Hrun & _); [ lia | lia | ].
    unfold _request_with_retries.
    rewrite He. simpl. now apply retry_run_sleeps with (out := out) (rq := mkRequest u hs tmo) (retries := retries).
  - intros net h u hs tmo.
    destruct (default_fetch_run net h u hs tmo) as (out & t & He & Hrun & _ & _).
    rewrite He. cbn [fst snd].
    pose proof (retry_run_sleeps _ _ _ _ _ Hrun) as Hs.
    pose proof (retry_run_count _ _ _ _ _ Hrun) as Hc.
    destruct (retry_run_gets _ _ _ _ _ Hrun) as [Hlen _].
    assert (Hle : (List.length (gets t) <= 3)%nat).
    { destruct (retry_loop_run net u hs default_retries tmo 3 0 h)
        as (out' & t' & He' & _ & Hle'); [ lia | reflexivity | ].
      unfold _request_with_retries in He. change (Z.to_nat (default_retries + 1)) with 3%nat in He.
      rewrite He in He'. inversion He'; subst. exact Hle'. }
    rewrite Hs. split.
    + destruct (List.length (gets t)) as [ | [ | [ | [ | n]]]]; try lia; reflexivity.
    + intros Hnone. inversion Hnone; subst out. unfold default_retries in Hc.
      assert (Hl : List.length (gets t) = 3%nat) by lia.
      rewrite Hl. reflexivity.
  - intros word_char net h query. rewrite exec_get_duckduckgo_image.
    destruct (net h (search_request query)) as [r1 | e]; [ | simpl; split; [ reflexivity | lia ] ].
    destruct (status_code r1 =? 200); [ | simpl; split; [ reflexivity | lia ] ].
    destruct (find_vqd word_char (text r1)); simpl; split; try reflexivity; lia.
Qed.

Lemma backoff_schedule_witness :
  sleeps (snd (exec (scripted []) []
                 (_request_with_retries "u" [] default_retries default_timeout)))
  = [float_0_4; float_0_8].
Proof.
  apply (proj2 (proj1 (proj2 (proj2 (proj2 (proj2 backoff_schedule))))
                  (scripted []) [] "u" [] default_timeout)).
  reflexivity.
Defined.

(** ** The summary lookup *)

Lemma exec_parse (net : network) (h : trace) (r : response) :
  exec net h (try_except (data <- res_json r ;; Ret (Some data))%io (fun _ => Ret None))
  = (Ok (json r), []).
Proof.
  rewrite exec_try_except, exec_bind. unfold res_json.
  now destruct (json r).
Qed.

Lemma exec_get_from_summary (net : network) (h : trace) title lang hs out t :
  exec net h (_request_with_retries (summary_url title lang) hs
                default_retries default_timeout) = (Ok out, t) ->
  exec net h (_get_from_summary title lang hs) = (parsed_value summary_pick out, t).
Proof.
  intros He. unfold _get_from_summary. rewrite exec_bind, He.
  destruct out as [r | ]; cbn [parsed_value];
    [ | cbn [exec]; now rewrite app_nil_r ].
  destruct (response_bool r); cbn [negb];
    [ | cbn [exec]; now rewrite app_nil_r ].
  rewrite exec_bind, exec_parse.
  destruct (json r) as [data | ]; cbn [exec]; rewrite ?exec_lift;
    now rewrite !app_nil_r.
Qed.

Lemma source_of_view d k o :
  view_source d k = Some o -> source_of (PDict d) k = Ok (url_or_none o).
Proof.
  unfold view_source, source_of. cbn [py_get rbind]. unfold dict_get_or_none.
  destruct (dict_get d k) as [[ | | | | | | ob] | ]; try discriminate;
    unfold py_or; cbn [truthy py_get].
  - now intros [= <-].
  - destruct ob as [ | kv ob']; cbn [truthy py_get].
    + cbn. now intros [= <-].
    + unfold dict_get_or_none.
      destruct (dict_get (kv :: ob') "source") as [[ | | | | u | | ] | ]; try discriminate.
      * now intros [= <-].
      * destruct (nonempty u); [ now intros [= <-] | discriminate ].
      * now intros [= <-].
  - now intros [= <-].
Qed.

Lemma truthy_url u : nonempty u = true -> truthy (PStr u) = true.
Proof. exact (fun H => H). Qed.

Lemma view_source_nonempty d k u :
  view_source d k = Some (Some u) -> nonempty u = true.
Proof.
  unfold view_source.
  destruct (dict_get d k) as [[ | | | | | | ob] | ]; try discriminate.
  destruct (dict_get ob "source") as [[ | | | | s | | ] | ]; try discriminate.
  destruct (nonempty s) eqn:Hs; [ | discriminate ].
  now intros [= <-].
Qed.

Lemma summary_pick_view d :
  (forall u, view_source d "thumbnail" = Some (Some u) ->
             summary_pick (PDict d) = Ok (PStr u))
  /\ (forall o, view_source d "thumbnail" = Some None ->
                view_source d "originalimage" = Some o ->
                summary_pick (PDict d) = Ok (url_or_none o)).
Proof.
  split.
  - intros u Hv. unfold summary_pick.
    rewrite (source_of_view _ _ _ Hv). cbn [rbind url_or_none].
    now rewrite (truthy_url _ (view_source_nonempty _ _ _ Hv)).
  - intros o Ht Ho. unfold summary_pick.
    rewrite (source_of_view _ _ _ Ht). cbn [rbind url_or_none truthy].
    now rewrite (source_of_view _ _ _ Ho).
Qed.



(** ** The media-list lookup *)

Lemma exec_get_from_media_list (net : network) (h : trace) title lang hs out t :
  exec net h (_request_with_retries (media_list_url title lang) hs
                default_retries default_timeout) = (Ok out, t) ->
  exec net h (_get_from_media_list title lang hs)
  = (parsed_value media_list_pick out, t).
Proof.
  intros He. unfold _get_from_media_list. rewrite exec_bind, He.
  destruct out as [r | ]; cbn [parsed_value];
    [ | cbn [exec]; now rewrite app_nil_r ].
  destruct (response_bool r); cbn [negb];
    [ | cbn [exec]; now rewrite app_nil_r ].
  rewrite exec_bind, exec_parse.
  destruct (json r) as [data | ]; cbn [exec]; rewrite ?exec_lift;
    now rewrite !app_nil_r.
Qed.


Lemma py_or_int_value w : int_value (py_or (PInt w) (PInt 0)) = w
                          /\ isinstance_int (py_or (PInt w) (PInt 0)) = true.
Proof.
  unfold py_or. cbn [truthy]. destruct (Z.eqb_spec w 0); cbn; [ subst | ]; auto.
Qed.











(** ** The selection among the variants *)

Lemma srcset_loop_eligible d rest best best_w :
  srcset_loop (PDict d :: rest) best best_w
  = match eligible (PDict d) with
    | Some (src, w) =>
        if w >? best_w then srcset_loop rest src w
        else srcset_loop rest best best_w
    | None => srcset_loop rest best best_w
    end.
Proof.
  cbn [srcset_loop py_get rbind eligible].
  destruct (truthy (dict_get_or_none d "src")); cbn [andb]; [ | reflexivity ].
  now destruct (isinstance_int (py_or (dict_get_or_none d "width") (PInt 0))).
Qed.







(** ** The languages and the composition *)

Lemma exec_get_image_from_lang (net : network) (h : trace) title lang :
  exec net h (_get_image_from_lang title lang) =
  match exec net h (_get_from_summary title lang wikipedia_headers) with
  | (Ok img, t) =>
      if truthy img then (Ok img, t)
      else (fst (exec net (h ++ t) (_get_from_media_list title lang wikipedia_headers)),
            t ++ snd (exec net (h ++ t) (_get_from_media_list title lang wikipedia_headers)))
  | (Raise e, t) => (Raise e, t)
  end.
Proof.
  unfold _get_image_from_lang. rewrite exec_bind.
  destruct (exec net h (_get_from_summary title lang wikipedia_headers)) as [[img | e] t];
    [ | reflexivity ].
  destruct (truthy img).
  - cbn [exec]. now rewrite app_nil_r.
  - now destruct (exec net (h ++ t) (_get_from_media_list title lang wikipedia_headers)).
Qed.

Lemma exec_get_wikipedia_image (net : network) (h : trace) name :
  exec net h (get_wikipedia_image name) =
  match exec net h (_get_image_from_lang name "ja") with
  | (Ok v1, t1) =>
      if truthy v1 then (Ok v1, t1)
      else
        match exec net (h ++ t1) (_get_image_from_lang name "en") with
        | (Ok v2, t2) => (Ok (if truthy v2 then v2 else PNone), t1 ++ t2)
        | (Raise e, t2) => (Raise e, t1 ++ t2)
        end
  | (Raise e, t1) => (Raise e, t1)
  end.
Proof.
  unfold get_wikipedia_image, languages. cbn [lang_loop]. rewrite exec_bind.
  destruct (exec net h (_get_image_from_lang name "ja")) as [[v1 | e] t1];
    [ | reflexivity ].
  destruct (truthy v1); [ cbn [exec]; now rewrite app_nil_r | ].
  rewrite exec_bind.
  destruct (exec net (h ++ t1) (_get_image_from_lang name "en")) as [[v2 | e] t2];
    [ | reflexivity ].
  destruct (truthy v2); cbn [exec]; now rewrite app_nil_r.
Qed.

Lemma exec_get_bird_image (word_char : ascii -> bool) (net : network)
  (h : trace) name :
  exec net h (get_bird_image word_char name) =
  match exec net h (get_wikipedia_image name) with
  | (Ok v, t) =>
      if truthy v then (Ok v, t)
      else (fst (exec net (h ++ t) (get_duckduckgo_image word_char name)),
            t ++ snd (exec net (h ++ t) (get_duckduckgo_image word_char name)))
  | (Raise e, t) => (Raise e, t)
  end.
Proof.
  unfold get_bird_image. rewrite exec_bind.
  destruct (exec net h (get_wikipedia_image name)) as [[v | e] t]; [ | reflexivity ].
  destruct (truthy v).
  - cbn [exec]. now rewrite app_nil_r.
  - now destruct (exec net (h ++ t) (get_duckduckgo_image word_char name)).
Qed.

(** Every request of a summary lookup is for the summary URL, and every
    request of a media-list lookup for the media-list URL. *)
Lemma get_from_summary_urls (net : network) (h : trace) title lang hs :
  Forall (fun x => x = summary_url title lang)
    (urls (snd (exec net h (_get_from_summary title lang hs)))).
Proof.
  destruct (default_fetch_run net h (summary_url title lang) hs default_timeout)
    as (out & t & He & _ & Hurls & _).
  now rewrite (exec_get_from_summary _ _ _ _ _ _ _ He).
Qed.

Lemma get_from_media_list_urls (net : network) (h : trace) title lang hs :
  Forall (fun x => x = media_list_url title lang)
    (urls (snd (exec net h (_get_from_media_list title lang hs)))).
Proof.
  destruct (default_fetch_run net h (media_list_url title lang) hs default_timeout)
    as (out & t & He & _ & Hurls & _).
  now rewrite (exec_get_from_media_list _ _ _ _ _ _ _ He).
Qed.

(** What [get_wikipedia_image] returns is a true value or [None]. *)
Lemma get_wikipedia_image_value (net : network) (h : trace) name v t :
  exec net h (get_wikipedia_image name) = (Ok v, t) ->
  truthy v = false -> v = PNone.
Proof.
  rewrite exec_get_wikipedia_image.
  destruct (exec net h (_get_image_from_lang name "ja")) as [[v1 | e] t1];
    [ | discriminate ].
  destruct (truthy v1) eqn:H1.
  - intros [= <- <-] Hf. congruence.
  - destruct (exec net (h ++ t1) (_get_image_from_lang name "en")) as [[v2 | e] t2];
      [ | discriminate ].
    destruct (truthy v2) eqn:H2; intros [= <- <-] Hf; [ congruence | reflexivity ].
Qed.

(** C3. The languages are ja, then en, and each is tried with the species
    name itself as the title.  A hit in ja is returned by
    [get_wikipedia_image] with the run of ja alone: en is not queried.
    After a miss in ja the result is that of en, a miss there being
    absence, so absence is returned exactly when both miss.  When both
    lookups of ja miss and the summary of en hits, [get_bird_image] returns
    that hit, and its run holds these three lookups and no other
    request. *)
Theorem language_fallback_contract :
  forall (net : network) (h : trace) (name : string),
    languages = ["ja"; "en"]
    /\ (forall v t,
          exec net h (_get_image_from_lang name "ja") = (Ok v, t) ->
          truthy v = true ->
          exec net h (get_wikipedia_image name) = (Ok v, t))
    /\ (forall v1 t1 v2 t2,
          exec net h (_get_image_from_lang name "ja") = (Ok v1, t1) ->
          truthy v1 = false ->
          exec net (h ++ t1) (_get_image_from_lang name "en") = (Ok v2, t2) ->
          exec net h (get_wikipedia_image name)
          = (Ok (if truthy v2 then v2 else PNone), t1 ++ t2))
    /\ (forall v t,
          exec net h (get_wikipedia_image name) = (Ok v, t) ->
          (v = PNone <->
           exists v1 t1 v2 t2,
             exec net h (_get_image_from_lang name "ja") = (Ok v1, t1)
             /\ truthy v1 = false
             /\ exec net (h ++ t1) (_get_image_from_lang name "en") = (Ok v2, t2)
             /\ truthy v2 = false))
    /\ (forall word_char s1 t1 m1 t2 u t3,
          exec net h (_get_from_summary name "ja" wikipedia_headers) = (Ok s1, t1) ->
          truthy s1 = false ->
          exec net (h ++ t1) (_get_from_media_list name "ja" wikipedia_headers)
          = (Ok m1, t2) ->
          truthy m1 = false ->
          exec net (h ++ t1 ++ t2) (_get_from_summary name "en" wikipedia_headers)
          = (Ok u, t3) ->
          truthy u = true ->
          exec net h (get_bird_image word_char name) = (Ok u, t1 ++ t2 ++ t3)
          /\ Forall (fun x => x = summary_url name "ja")  (urls t1)
          /\ Forall (fun x => x = media_list_url name "ja") (urls t2)
          /\ Forall (fun x => x = summary_url name "en") (urls t3)).
Proof.
  intros net h name.
  split; [ reflexivity | split; [ | split; [ | split ] ] ].
  - intros v t He Ht. now rewrite exec_get_wikipedia_image, He, Ht.
  - intros v1 t1 v2 t2 H1 Hf H2. now rewrite exec_get_wikipedia_image, H1, Hf, H2.
  - intros v t. rewrite exec_get_wikipedia_image.
    destruct (exec net h (_get_image_from_lang name "ja")) as [[v1 | e] t1];
      [ | discriminate ].
    destruct (truthy v1) eqn:Hv1.
    + intros [= <- <-]. split.
      * intros ->. discriminate.
      * intros (v1' & t1' & v2 & t2 & [= <- <-] & Hf & _). congruence.
    + destruct (exec net (h ++ t1) (_get_image_from_lang name "en"))
        as [[v2 | e] t2] eqn:E2; [ | discriminate ].
      destruct (truthy v2) eqn:Hv2; intros [= <- <-]; split.
      * intros ->. discriminate.
      * intros (v1' & t1' & v2' & t2' & [= <- <-] & _ & H2 & Hf).
        rewrite E2 in H2. injection H2 as <- <-. congruence.
      * intros _. now exists v1, t1, v2, t2.
      * reflexivity.
  - intros word_char s1 t1 m1 t2 u t3 Hs1 Hf1 Hm1 Hfm Hs2 Hu.
    pose proof (get_from_summary_urls net h name "ja" wikipedia_headers) as U1.
    pose proof (get_from_media_list_urls net (h ++ t1) name "ja" wikipedia_headers) as U2.
    pose proof (get_from_summary_urls net (h ++ t1 ++ t2) name "en" wikipedia_headers) as U3.
    rewrite Hs1 in U1. rewrite Hm1 in U2. rewrite Hs2 in U3.
    split; [ | now repeat split ].
    rewrite exec_get_bird_image, exec_get_wikipedia_image.
    rewrite (exec_get_image_from_lang net h), Hs1, Hf1, Hm1. cbn [fst snd].
    rewrite Hfm.
    rewrite (exec_get_image_from_lang net (h ++ t1 ++ t2)), Hs2, Hu.
    rewrite Hu. cbn iota. rewrite Hu, <- app_assoc. reflexivity.
Qed.

Lemma language_fallback_contract_witness :
  fst (exec sample_fallback_net [] (get_bird_image ascii_word "suzume"))
  = Ok (PStr "https://upload.example/en.jpg")
  /\ urls (snd (exec sample_fallback_net [] (get_bird_image ascii_word "suzume")))
     = [summary_url "suzume" "ja"; summary_url "suzume" "ja"; summary_url "suzume" "ja";
        media_list_url "suzume" "ja"; media_list_url "suzume" "ja";
        media_list_url "suzume" "ja"; summary_url "suzume" "en"].
Proof.
  destruct (proj2 (proj2 (proj2 (proj2
              (language_fallback_contract sample_fallback_net [] "suzume"))))
              ascii_word
              PNone
              (snd (exec sample_fallback_net []
                      (_get_from_summary "suzume" "ja" wikipedia_headers)))
              PNone
              (snd (exec sample_fallback_net
                      (snd (exec sample_fallback_net []
                              (_get_from_summary "suzume" "ja" wikipedia_headers)))
                      (_get_from_media_list "suzume" "ja" wikipedia_headers)))
              (PStr "https://upload.example/en.jpg")
              [EvGet (mkRequest (summary_url "suzume" "en") wikipedia_headers default_timeout)
                 (Ok (ok_json (sample_summary "https://upload.example/en.jpg")))]
              eq_refl eq_refl eq_refl eq_refl eq_refl eq_refl) as [He _].
  rewrite He. split; reflexivity.
Defined.

(** C1. [get_bird_image] runs [get_wikipedia_image] first.  A true result
    is returned as it is, with the run of [get_wikipedia_image] alone; a
    false result is [None], and only then does the run go on with
    [get_duckduckgo_image], whose result is returned; an exception of
    [get_wikipedia_image] is not caught.  When the summary of the primary
    language has a thumbnail, that URL is returned and the run is the fetch
    of that summary: every request in it is for the summary URL of ja. *)
Theorem get_bird_image_precedence :
  forall (word_char : ascii -> bool) (net : network) (h : trace) (name : string),
    (forall v t,
        exec net h (get_wikipedia_image name) = (Ok v, t) -> truthy v = true ->
        exec net h (get_bird_image word_char name) = (Ok v, t))
    /\ (forall v t,
          exec net h (get_wikipedia_image name) = (Ok v, t) -> truthy v = false ->
          v = PNone
          /\ exec net h (get_bird_image word_char name)
             = (fst (exec net (h ++ t) (get_duckduckgo_image word_char name)),
                t ++ snd (exec net (h ++ t) (get_duckduckgo_image word_char name))))
    /\ (forall e t,
          exec net h (get_wikipedia_image name) = (Raise e, t) ->
          exec net h (get_bird_image word_char name) = (Raise e, t))
    /\ (forall r t d u,
          exec net h (_request_with_retries (summary_url name "ja") wikipedia_headers
                        default_retries default_timeout) = (Ok (Some r), t) ->
          json r = Some (PDict d) ->
          view_source d "thumbnail" = Some (Some u) ->
          exec net h (get_bird_image word_char name) = (Ok (PStr u), t)
          /\ Forall (fun x => x = summary_url name "ja") (urls t)).
Proof.
  intros word_char net h name. split; [ | split; [ | split ] ].
  - intros v t He Ht. now rewrite exec_get_bird_image, He, Ht.
  - intros v t He Hf. split; [ exact (get_wikipedia_image_value _ _ _ _ _ He Hf) | ].
    now rewrite exec_get_bird_image, He, Hf.
  - intros e t He. now rewrite exec_get_bird_image, He.
  - intros r t d u He Hj Hv.
    destruct (default_fetch_run net h (summary_url name "ja") wikipedia_headers
                default_timeout) as (out & t' & He' & _ & _ & Hok).
    rewrite He in He'. injection He' as <- <-. destruct Hok as [_ Hb].
    pose proof (exec_get_from_summary _ _ _ _ _ _ _ He) as Hsum.
    cbn [parsed_value] in Hsum.
    rewrite Hb, Hj, (proj1 (summary_pick_view d) u Hv) in Hsum.
    pose proof (get_from_summary_urls net h name "ja" wikipedia_headers) as Hurls.
    rewrite Hsum in Hurls. split; [ | exact Hurls ].
    rewrite exec_get_bird_image, exec_get_wikipedia_image, exec_get_image_from_lang.
    rewrite Hsum.
    pose proof (truthy_url _ (view_source_nonempty _ _ _ Hv)) as Htrue.
    rewrite Htrue. cbn iota. rewrite Htrue. cbn iota. now rewrite Htrue.
Qed.

Lemma get_bird_image_precedence_witness :
  exec sample_primary_net [] (get_bird_image ascii_word "suzume")
  = (Ok (PStr "https://upload.example/ja.jpg"),
     [EvGet (mkRequest (summary_url "suzume" "ja") wikipedia_headers default_timeout)
        (Ok (ok_json (sample_summary "https://upload.example/ja.jpg")))]).
Proof.
  apply (proj1 (proj2 (proj2 (proj2
           (get_bird_image_precedence ascii_word sample_primary_net [] "suzume")))
           (ok_json (sample_summary "https://upload.example/ja.jpg"))
           [EvGet (mkRequest (summary_url "suzume" "ja") wikipedia_headers default_timeout)
              (Ok (ok_json (sample_summary "https://upload.example/ja.jpg")))]
           [("title", PStr "suzume");
            ("thumbnail",
             PDict [("source", PStr "https://upload.example/ja.jpg"); ("width", PInt 320)])]
           "https://upload.example/ja.jpg"
           eq_refl eq_refl eq_refl)).
Defined.

(** ** Bodies of an unexpected shape *)

(** C2 does not hold of the code.  The scrape path catches every
    exception and always returns; the encyclopedia path catches the
    exceptions of the fetch and of the parse only: on a summary answered
    200 whose thumbnail is a string, or whose body is a list, the call of
    [get] on it raises, nothing catches the exception, and [get_bird_image]
    raises instead of going on to the media list, the fallback language or
    the scrape path. *)
Theorem get_bird_image_raises :
  (forall word_char net h query,
      exists v t, exec net h (get_duckduckgo_image word_char query) = (Ok v, t))
  /\ exec (scripted [Ok (ok_json odd_summary_thumbnail)]) []
       (get_bird_image ascii_word "suzume")
     = (Raise AttributeError,
        [EvGet (mkRequest (summary_url "suzume" "ja") wikipedia_headers default_timeout)
           (Ok (ok_json odd_summary_thumbnail))])
  /\ exec (scripted [Ok (ok_json odd_summary_list)]) []
       (get_bird_image ascii_word "suzume")
     = (Raise AttributeError,
        [EvGet (mkRequest (summary_url "suzume" "ja") wikipedia_headers default_timeout)
           (Ok (ok_json odd_summary_list))]).
Proof.
  split; [ | split ].
  - intros word_char net h query. rewrite exec_get_duckduckgo_image.
    destruct (net h (search_request query)) as [r1 | e]; [ | eauto ].
    destruct (status_code r1 =? 200); [ | eauto ].
    destruct (find_vqd word_char (text r1)); eauto.
  - rewrite exec_get_bird_image, exec_get_wikipedia_image, exec_get_image_from_lang.
    rewrite (exec_get_from_summary _ _ _ _ _ (Some (ok_json odd_summary_thumbnail))
               [EvGet (mkRequest (summary_url "suzume" "ja") wikipedia_headers
                         default_timeout)
                  (Ok (ok_json odd_summary_thumbnail))]);
      reflexivity.
  - rewrite exec_get_bird_image, exec_get_wikipedia_image, exec_get_image_from_lang.
    rewrite (exec_get_from_summary _ _ _ _ _ (Some (ok_json odd_summary_list))
               [EvGet (mkRequest (summary_url "suzume" "ja") wikipedia_headers
                         default_timeout)
                  (Ok (ok_json odd_summary_list))]);
      reflexivity.
Qed.

(** ** No state between calls *)








(** * Further properties *)

(** ** [quote] *)

Lemma nat_of_ascii_bound (c : ascii) : (nat_of_ascii c < 256)%nat.
Proof. apply nat_ascii_bounded. Qed.

Lemma hex_digit_code (k : nat) :
  (k < 16)%nat ->
  nat_of_ascii (hex_digit k) = if (k <? 10)%nat then (48 + k)%nat else (55 + k)%nat.
Proof.
  intros Hk. unfold hex_digit.
  destruct (k <? 10)%nat; apply nat_ascii_embedding; lia.
Qed.

Lemma hex_digit_unreserved (k : nat) : (k < 16)%nat -> unreserved (hex_digit k) = true.
Proof.
  intros Hk. do 16 (destruct k as [ | k]; [ reflexivity | ]). lia.
Qed.

Lemma hex_digit_inj (a b : nat) :
  (a < 16)%nat -> (b < 16)%nat -> hex_digit a = hex_digit b -> a = b.
Proof.
  intros Ha Hb Heq. apply (f_equal nat_of_ascii) in Heq.
  rewrite !hex_digit_code in Heq by assumption.
  destruct (Nat.ltb_spec a 10), (Nat.ltb_spec b 10); lia.
Qed.

Lemma percent_reserved : unreserved "%"%char = false.
Proof. reflexivity. Qed.

Lemma quote_cons (c : ascii) (s : string) :
  quote (String c s)
  = if unreserved c then String c (quote s)
    else String "%" (String (hex_digit (nat_of_ascii c / 16))
                       (String (hex_digit (nat_of_ascii c mod 16)) (quote s))).
Proof. reflexivity. Qed.

(** X1. Whatever the name, [quote] produces only letters, digits, the four
    marks [_.-~] and the percent sign of an escape: no slash, question mark,
    ampersand, equals sign, hash or space of the name reaches a URL. *)
Theorem quote_alphabet :
  forall s : string,
    Forall (fun c => unreserved c = true \/ c = "%"%char)
      (list_ascii_of_string (quote s)).
Proof.
  induction s as [ | c s IH]; [ constructor | ].
  rewrite quote_cons.
  - destruct (unreserved c) eqn:Hc; cbn [list_ascii_of_string].
    + constructor; [ now left | exact IH ].
    + pose proof (nat_of_ascii_bound c) as Hb.
      constructor; [ now right | ].
      constructor; [ left; apply hex_digit_unreserved, Nat.Div0.div_lt_upper_bound; lia | ].
      constructor; [ left; apply hex_digit_unreserved, Nat.mod_upper_bound; lia | ].
      exact IH.
Qed.

(** X2. [quote] loses nothing: two names with the same escaped form are the
    same name, so two species never share a lookup URL. *)
Theorem quote_injective :
  forall s1 s2 : string, quote s1 = quote s2 -> s1 = s2.
Proof.
  induction s1 as [ | c1 s1 IH]; intros [ | c2 s2] Heq;
    rewrite ?quote_cons in Heq; cbn [quote] in Heq.
  - reflexivity.
  - destruct (unreserved c2); discriminate.
  - destruct (unreserved c1); discriminate.
  - pose proof (nat_of_ascii_bound c1) as Hb1.
    pose proof (nat_of_ascii_bound c2) as Hb2.
    destruct (unreserved c1) eqn:H1, (unreserved c2) eqn:H2.
    + injection Heq as -> Hrest. now rewrite (IH _ Hrest).
    + injection Heq as -> _. rewrite percent_reserved in H1. discriminate.
    + injection Heq as <- _. rewrite percent_reserved in H2. discriminate.
    + set (n1 := nat_of_ascii c1) in *. set (n2 := nat_of_ascii c2) in *.
      assert (Hn : n1 = n2).
      { rewrite (Nat.div_mod_eq n1 16), (Nat.div_mod_eq n2 16).
        remember (n1 / 16)%nat as a1 eqn:Ea1. remember (n2 / 16)%nat as a2 eqn:Ea2.
        remember (n1 mod 16)%nat as b1 eqn:Eb1. remember (n2 mod 16)%nat as b2 eqn:Eb2.
        injection Heq as Hhi Hlo _.
        apply hex_digit_inj in Hhi;
          [ | subst a1; apply Nat.Div0.div_lt_upper_bound; lia
            | subst a2; apply Nat.Div0.div_lt_upper_bound; lia ].
        apply hex_digit_inj in Hlo;
          [ | subst b1; apply Nat.mod_upper_bound; lia
            | subst b2; apply Nat.mod_upper_bound; lia ].
        now rewrite Hhi, Hlo. }
      assert (Hc : c1 = c2).
      { apply (f_equal ascii_of_nat) in Hn. subst n1 n2.
        now rewrite !ascii_nat_embedding in Hn. }
      subst c2. subst n1 n2.
      assert (Hrest : quote s1 = quote s2) by (now injection Heq).
      now rewrite (IH _ Hrest).
Qed.

Lemma quote_injective_witness : "Passer montanus" = "Passer montanus".
Proof.
  apply (quote_injective "Passer montanus" "Passer montanus"). reflexivity.
Defined.

Lemma quote_length (s : string) : (String.length s <= String.length (quote s))%nat.
Proof.
  induction s as [ | c s IH]; [ cbn; lia | ].
  rewrite quote_cons. destruct (unreserved c); cbn [String.length]; lia.
Qed.

(** X3. [quote] leaves a name unchanged exactly when the name is made of
    unreserved characters only: a plain ASCII name goes into the URL as it
    is, and any other name is changed. *)
Theorem quote_identity_iff :
  forall s : string,
    quote s = s <-> forallb unreserved (list_ascii_of_string s) = true.
Proof.
  induction s as [ | c s IH]; [ now split | ].
  rewrite quote_cons. cbn [list_ascii_of_string forallb].
  - destruct (unreserved c) eqn:Hc; cbn [andb].
    + rewrite <- IH. split; [ now intros [= ->] | now intros -> ].
    + split; [ | discriminate ].
      intros Heq. apply (f_equal String.length) in Heq.
      cbn [String.length] in Heq. pose proof (quote_length s). lia.
Qed.

(** ** The token of the scrape path *)

Lemma string_app_assoc (a b c : string) :
  ((a ++ b) ++ c = a ++ b ++ c)%string.
Proof. induction a as [ | x a IH]; cbn; [ reflexivity | now rewrite IH ]. Qed.

Lemma strip_prefix_app (p s r : string) :
  strip_prefix p s = Some r -> s = (p ++ r)%string.
Proof.
  revert s. induction p as [ | a p IH]; intros s Hs; cbn [strip_prefix] in Hs.
  - now injection Hs as ->.
  - destruct s as [ | b s]; [ discriminate | ].
    destruct (Ascii.eqb_spec a b) as [-> | ]; [ | discriminate ].
    cbn. now rewrite (IH _ Hs).
Qed.

Lemma re_search_found (match_at : string -> option string) (s g : string) :
  re_search match_at s = Some g ->
  exists pre suf, s = (pre ++ suf)%string /\ match_at suf = Some g.
Proof.
  induction s as [ | c s IH]; cbn [re_search].
  - destruct (match_at EmptyString) eqn:Hm; [ | discriminate ].
    intros [= ->]. now exists EmptyString, EmptyString.
  - destruct (match_at (String c s)) eqn:Hm.
    + intros [= ->]. now exists EmptyString, (String c s).
    + intros Hs. destruct (IH Hs) as (pre & suf & -> & Hsuf).
      now exists (String c pre), suf.
Qed.

(** What [match_token] returns is a non-empty run of token characters at
    the start of the text, directly followed by a closing character. *)
Lemma match_token_run (word_char closing : ascii -> bool) :
  forall s t,
    match_token word_char closing s = Some t ->
    t <> EmptyString
    /\ Forall (fun c => token_char word_char c = true) (list_ascii_of_string t)
    /\ exists q rest, s = (t ++ String q rest)%string /\ closing q = true.
Proof.
  induction s as [ | c s IH]; intros t Hm; cbn [match_token] in Hm; [ discriminate | ].
  destruct (token_char word_char c) eqn:Hc; [ | discriminate ].
  destruct (match_token word_char closing s) as [t' | ] eqn:Hrec.
  - injection Hm as <-. destruct (IH _ eq_refl) as (_ & Hall & q & rest & -> & Hq).
    split; [ discriminate | split; [ now constructor | now exists q, rest ] ].
  - destruct s as [ | q rest]; [ discriminate | ].
    destruct (closing q) eqn:Hq; [ | discriminate ].
    injection Hm as <-.
    split; [ discriminate | split; [ now repeat constructor | now exists q, rest ] ].
Qed.

Lemma is_quote_dquote : forall c, (c =? dquote)%char = true -> is_quote c = true.
Proof. intros c Hc. unfold is_quote. rewrite Hc. apply orb_true_r. Qed.

(** X4. A token the scrape path takes from a page is never empty, is made
    of word characters and hyphens only, and stands in the page directly
    before a quote character: what goes unescaped into the second URL is a
    run of [[\w-]] and nothing else. *)
Theorem find_vqd_token :
  forall (word_char : ascii -> bool) (body vqd : string),
    find_vqd word_char body = Some vqd ->
    vqd <> EmptyString
    /\ Forall (fun c => token_char word_char c = true) (list_ascii_of_string vqd)
    /\ exists pre q post,
         body = (pre ++ vqd ++ String q post)%string /\ is_quote q = true.
Proof.
  intros word_char body vqd Hfind. unfold find_vqd in Hfind.
  destruct (re_search (match_vqd_assign word_char) body) as [g | ] eqn:H1.
  - injection Hfind as ->.
    destruct (re_search_found _ _ _ H1) as (pre & suf & -> & Hm).
    unfold match_vqd_assign in Hm.
    destruct (strip_prefix "vqd=" suf) as [[ | q0 rest0] | ] eqn:Hp; try discriminate.
    destruct (is_quote q0); [ | discriminate ].
    destruct (match_token_run _ _ _ _ Hm) as (Hne & Hall & q & post & -> & Hq).
    split; [ exact Hne | split; [ exact Hall | ] ].
    exists (pre ++ "vqd=" ++ String q0 EmptyString)%string, q, post.
    split; [ | exact Hq ].
    rewrite (strip_prefix_app _ _ _ Hp).
    rewrite !string_app_assoc. reflexivity.
  - destruct (re_search_found _ _ _ Hfind) as (pre & suf & -> & Hm).
    unfold match_vqd_json in Hm.
    destruct (strip_prefix _ suf) as [rest0 | ] eqn:Hp; [ | discriminate ].
    destruct (match_token_run _ _ _ _ Hm) as (Hne & Hall & q & post & -> & Hq).
    split; [ exact Hne | split; [ exact Hall | ] ].
    exists (pre ++ String dquote ("vqd" ++ String dquote (":" ++ String dquote "")))%string,
      q, post.
    split; [ | now apply is_quote_dquote ].
    rewrite (strip_prefix_app _ _ _ Hp).
    now rewrite !string_app_assoc.
Qed.

Lemma find_vqd_token_witness :
  "4-123_x" <> EmptyString
  /\ Forall (fun c => token_char ascii_word c = true) (list_ascii_of_string "4-123_x")
  /\ exists pre q post,
       "<script>vqd='4-123_x';</script>" = (pre ++ "4-123_x" ++ String q post)%string
       /\ is_quote q = true.
Proof.
  apply (find_vqd_token ascii_word "<script>vqd='4-123_x';</script>" "4-123_x").
  reflexivity.
Defined.

(** ** The events of a resolution *)

Lemma gets_app (t1 t2 : trace) : gets (t1 ++ t2) = gets t1 ++ gets t2.
Proof.
  induction t1 as [ | [rq r | d] t1 IH]; cbn [gets app];
    [ reflexivity | now rewrite IH | exact IH ].
Qed.

Lemma sleeps_app (t1 t2 : trace) : sleeps (t1 ++ t2) = sleeps t1 ++ sleeps t2.
Proof.
  induction t1 as [ | [rq r | d] t1 IH]; cbn [sleeps app];
    [ reflexivity | exact IH | now rewrite IH ].
Qed.

Lemma lookup_trace_nil (rq : request) : lookup_trace rq [].
Proof. repeat split; cbn; try lia; constructor. Qed.

Lemma scrape_trace_nil (name : string) : scrape_trace name [].
Proof. repeat split; cbn; try lia; constructor. Qed.

Lemma backoffs_default (n : nat) :
  (n <= 2)%nat ->
  Forall (fun d => d = float_0_4 \/ d = float_0_8) (backoffs 0 n)
  /\ List.length (backoffs 0 n) = n.
Proof.
  intros Hn. destruct n as [ | [ | [ | n]]]; [ | | | lia ];
    (split; [ | reflexivity ]).
  - constructor.
  - constructor; [ now left | constructor ].
  - constructor; [ now left | constructor; [ now right | constructor ] ].
Qed.

(** The events of a fetch under the default policy. *)
Lemma default_fetch_trace (net : network) (h : trace) u hs tmo :
  lookup_trace (mkRequest u hs tmo)
    (snd (exec net h (_request_with_retries u hs default_retries tmo))).
Proof.
  unfold _request_with_retries.
  destruct (retry_loop_run net u hs default_retries tmo 3 0 h)
    as (out & t & He & Hrun & Hlen); [ lia | reflexivity | ].
  change (Z.to_nat (default_retries + 1)) with 3%nat. rewrite He. cbn [snd].
  destruct (retry_run_gets _ _ _ _ _ Hrun) as [Hpos Hall].
  pose proof (retry_run_sleeps _ _ _ _ _ Hrun) as Hs.
  destruct (backoffs_default (List.length (gets t) - 1)) as [Hd Hl]; [ lia | ].
  unfold lookup_trace. rewrite Hs, Hl. repeat split; try assumption; lia.
Qed.

Lemma get_from_summary_trace (net : network) (h : trace) title lang :
  lookup_trace (wikipedia_request (summary_url title lang))
    (snd (exec net h (_get_from_summary title lang wikipedia_headers))).
Proof.
  pose proof (default_fetch_trace net h (summary_url title lang) wikipedia_headers
                default_timeout) as Ht.
  destruct (default_fetch_run net h (summary_url title lang) wikipedia_headers
              default_timeout) as (out & t & He & _).
  rewrite He in Ht. now rewrite (exec_get_from_summary _ _ _ _ _ _ _ He).
Qed.

Lemma get_from_media_list_trace (net : network) (h : trace) title lang :
  lookup_trace (wikipedia_request (media_list_url title lang))
    (snd (exec net h (_get_from_media_list title lang wikipedia_headers))).
Proof.
  pose proof (default_fetch_trace net h (media_list_url title lang) wikipedia_headers
                default_timeout) as Ht.
  destruct (default_fetch_run net h (media_list_url title lang) wikipedia_headers
              default_timeout) as (out & t & He & _).
  rewrite He in Ht. now rewrite (exec_get_from_media_list _ _ _ _ _ _ _ He).
Qed.

(** The events of one language: the summary lookup, then the media-list
    lookup or nothing. *)
Lemma get_image_from_lang_trace (net : network) (h : trace) title lang :
  exists t1 t2,
    snd (exec net h (_get_image_from_lang title lang)) = t1 ++ t2
    /\ lookup_trace (wikipedia_request (summary_url title lang)) t1
    /\ lookup_trace (wikipedia_request (media_list_url title lang)) t2.
Proof.
  rewrite exec_get_image_from_lang.
  pose proof (get_from_summary_trace net h title lang) as H1.
  destruct (exec net h (_get_from_summary title lang wikipedia_headers)) as [[img | e] t];
    cbn [snd] in H1.
  - destruct (truthy img).
    + exists t, []. rewrite app_nil_r.
      split; [ reflexivity | split; [ exact H1 | apply lookup_trace_nil ] ].
    + exists t, (snd (exec net (h ++ t) (_get_from_media_list title lang wikipedia_headers))).
      split; [ reflexivity | split; [ exact H1 | apply get_from_media_list_trace ] ].
  - exists t, []. rewrite app_nil_r.
    split; [ reflexivity | split; [ exact H1 | apply lookup_trace_nil ] ].
Qed.

(** The events of the encyclopedia path: ja, then en or nothing. *)
Lemma get_wikipedia_image_trace (net : network) (h : trace) name :
  exists t1 t2 t3 t4,
    snd (exec net h (get_wikipedia_image name)) = t1 ++ t2 ++ t3 ++ t4
    /\ lookup_trace (wikipedia_request (summary_url name "ja")) t1
    /\ lookup_trace (wikipedia_request (media_list_url name "ja")) t2
    /\ lookup_trace (wikipedia_request (summary_url name "en")) t3
    /\ lookup_trace (wikipedia_request (media_list_url name "en")) t4.
Proof.
  rewrite exec_get_wikipedia_image.
  destruct (get_image_from_lang_trace net h name "ja") as (t1 & t2 & Hja & L1 & L2).
  destruct (exec net h (_get_image_from_lang name "ja")) as [[v1 | e] ta];
    cbn [snd] in Hja; subst ta.
  - destruct (truthy v1).
    + exists t1, t2, [], []. rewrite !app_nil_r.
      split; [ reflexivity | ].
      split; [ exact L1 | split; [ exact L2 | split; apply lookup_trace_nil ] ].
    + destruct (get_image_from_lang_trace net (h ++ t1 ++ t2) name "en")
        as (t3 & t4 & Hen & L3 & L4).
      exists t1, t2, t3, t4.
      split; [ | split; [ exact L1 | split; [ exact L2 | split; [ exact L3 | exact L4 ] ] ] ].
      destruct (exec net (h ++ t1 ++ t2) (_get_image_from_lang name "en")) as [[v2 | e] tb];
        cbn [snd] in Hen |- *; subst tb; now rewrite <- app_assoc.
  - exists t1, t2, [], []. rewrite !app_nil_r.
    split; [ reflexivity | ].
    split; [ exact L1 | split; [ exact L2 | split; apply lookup_trace_nil ] ].
Qed.

Lemma get_duckduckgo_image_trace (word_char : ascii -> bool) (net : network)
  (h : trace) name :
  scrape_trace name (snd (exec net h (get_duckduckgo_image word_char name))).
Proof.
  rewrite exec_get_duckduckgo_image. unfold scrape_trace, is_scrape_request.
  assert (Hone : forall r,
             (List.length (gets [EvGet (search_request name) r]) <= 2)%nat
             /\ sleeps [EvGet (search_request name) r] = []
             /\ Forall (fun g => fst g = search_request name
                                 \/ exists vqd, fst g = results_request name vqd)
                  (gets [EvGet (search_request name) r])).
  { intros r. cbn [gets sleeps List.length fst].
    split; [ lia | split; [ reflexivity | ] ].
    constructor; [ now left | constructor ]. }
  destruct (net h (search_request name)) as [r1 | e]; [ | apply Hone ].
  destruct (status_code r1 =? 200); [ | apply Hone ].
  destruct (find_vqd word_char (text r1)) as [vqd | ]; [ | apply Hone ].
  cbn [snd gets sleeps List.length fst].
  split; [ lia | split; [ reflexivity | ] ].
  constructor; [ now left | ].
  constructor; [ right; now exists vqd | constructor ].
Qed.

(** The events of a resolution, in their order: the four encyclopedia
    lookups, each possibly absent, then the scrape path or nothing. *)
Lemma get_bird_image_trace (word_char : ascii -> bool) (net : network)
  (h : trace) name :
  exists t1 t2 t3 t4 td,
    snd (exec net h (get_bird_image word_char name)) = t1 ++ t2 ++ t3 ++ t4 ++ td
    /\ lookup_trace (wikipedia_request (summary_url name "ja")) t1
    /\ lookup_trace (wikipedia_request (media_list_url name "ja")) t2
    /\ lookup_trace (wikipedia_request (summary_url name "en")) t3
    /\ lookup_trace (wikipedia_request (media_list_url name "en")) t4
    /\ scrape_trace name td.
Proof.
  rewrite exec_get_bird_image.
  destruct (get_wikipedia_image_trace net h name)
    as (t1 & t2 & t3 & t4 & Hw & L1 & L2 & L3 & L4).
  assert (Hnil : forall td, scrape_trace name td ->
            exists t1' t2' t3' t4' td',
              (t1 ++ t2 ++ t3 ++ t4) ++ td = t1' ++ t2' ++ t3' ++ t4' ++ td'
              /\ lookup_trace (wikipedia_request (summary_url name "ja")) t1'
              /\ lookup_trace (wikipedia_request (media_list_url name "ja")) t2'
              /\ lookup_trace (wikipedia_request (summary_url name "en")) t3'
              /\ lookup_trace (wikipedia_request (media_list_url name "en")) t4'
              /\ scrape_trace name td').
  { intros td Hd. exists t1, t2, t3, t4, td.
    split; [ now rewrite <- !app_assoc | ].
    split; [ exact L1 | split; [ exact L2 | split; [ exact L3 | split; [ exact L4 | exact Hd ] ] ] ]. }
  destruct (exec net h (get_wikipedia_image name)) as [[v | e] tw];
    cbn [snd] in Hw; subst tw.
  - destruct (truthy v); cbn [snd].
    + rewrite <- (app_nil_r (t1 ++ t2 ++ t3 ++ t4)). apply Hnil, scrape_trace_nil.
    + apply Hnil, get_duckduckgo_image_trace.
  - cbn [snd]. rewrite <- (app_nil_r (t1 ++ t2 ++ t3 ++ t4)). apply Hnil, scrape_trace_nil.
Qed.

Lemma lookup_trace_counts (rq : request) (t : trace) :
  lookup_trace rq t ->
  (List.length (gets t) <= 3)%nat /\ (List.length (sleeps t) <= 2)%nat
  /\ Forall (fun d => d = float_0_4 \/ d = float_0_8) (sleeps t).
Proof. intros (Hg & Hs & Hd & _). now repeat split. Qed.

(** X5. One resolution, whatever the upstream does and whether it returns
    or raises, makes at most fourteen requests (three for each of the four
    encyclopedia lookups, two for the scrape path) and sleeps at most eight
    times, each time for 0.4 or 0.8 seconds; both bounds are reached when
    the encyclopedia answers 404 throughout and the scrape path succeeds. *)
Theorem get_bird_image_work_bound :
  (forall (word_char : ascii -> bool) (net : network) (h : trace) (name : string),
      (List.length (gets (snd (exec net h (get_bird_image word_char name)))) <= 14)%nat
      /\ (List.length (sleeps (snd (exec net h (get_bird_image word_char name)))) <= 8)%nat
      /\ Forall (fun d => d = float_0_4 \/ d = float_0_8)
           (sleeps (snd (exec net h (get_bird_image word_char name)))))
  /\ List.length (gets (snd (exec sample_scrape_net []
                               (get_bird_image ascii_word "suzume")))) = 14%nat
  /\ List.length (sleeps (snd (exec sample_scrape_net []
                                 (get_bird_image ascii_word "suzume")))) = 8%nat.
Proof.
  split; [ | split; vm_compute; reflexivity ].
  intros word_char net h name.
  destruct (get_bird_image_trace word_char net h name)
    as (t1 & t2 & t3 & t4 & td & -> & L1 & L2 & L3 & L4 & (Dg & Ds & _)).
  apply lookup_trace_counts in L1, L2, L3, L4.
  destruct L1 as (G1 & S1 & D1), L2 as (G2 & S2 & D2),
           L3 as (G3 & S3 & D3), L4 as (G4 & S4 & D4).
  rewrite !gets_app, !sleeps_app, !length_app, Ds. cbn [List.length].
  split; [ lia | split; [ lia | ] ].
  rewrite app_nil_r. now repeat (apply Forall_app; split).
Qed.

(** X6. The requests of one resolution come in a fixed order: those for
    the ja summary, the ja media list, the en summary and the en media
    list, each with the User-Agent of the tool and a timeout of 8 seconds,
    and only after them those of the scrape path, the search page and the
    image results of the escaped name; no other request is ever made. *)
Theorem get_bird_image_request_order :
  forall (word_char : ascii -> bool) (net : network) (h : trace) (name : string),
  exists t1 t2 t3 t4 td,
    snd (exec net h (get_bird_image word_char name)) = t1 ++ t2 ++ t3 ++ t4 ++ td
    /\ Forall (fun g => fst g = wikipedia_request (summary_url name "ja")) (gets t1)
    /\ Forall (fun g => fst g = wikipedia_request (media_list_url name "ja")) (gets t2)
    /\ Forall (fun g => fst g = wikipedia_request (summary_url name "en")) (gets t3)
    /\ Forall (fun g => fst g = wikipedia_request (media_list_url name "en")) (gets t4)
    /\ Forall (fun g => is_scrape_request name (fst g)) (gets td).
Proof.
  intros word_char net h name.
  destruct (get_bird_image_trace word_char net h name)
    as (t1 & t2 & t3 & t4 & td & Ht & L1 & L2 & L3 & L4 & (_ & _ & Hd)).
  exists t1, t2, t3, t4, td.
  destruct L1 as (_ & _ & _ & R1), L2 as (_ & _ & _ & R2),
           L3 as (_ & _ & _ & R3), L4 as (_ & _ & _ & R4).
  now repeat split.
Qed.

(** ** Bodies the encyclopedia path reads without raising *)











(** ** Variants of negative width *)

Lemma srcset_loop_negative :
  forall l best best_w,
    -1 <= best_w ->
    Forall (fun s => exists ds w,
                s = PDict ds /\ dict_get ds "width" = Some (PInt w) /\ w < 0) l ->
    srcset_loop l best best_w = Ok (best, best_w).
Proof.
  induction l as [ | s l IH]; intros best best_w Hb Hall; [ reflexivity | ].
  inversion Hall as [ | s' l' (ds & w & -> & Hw & Hneg) Hrest]; subst.
  rewrite srcset_loop_eligible. cbn [eligible].
  rewrite (dict_get_or_none_some _ _ _ Hw).
  destruct (py_or_int_value w) as [-> ->].
  destruct (truthy (dict_get_or_none ds "src")); cbn [andb]; [ | now apply IH ].
  destruct (Z.gtb_spec w best_w); [ lia | now apply IH ].
Qed.

(** X8. The selection starts from the width -1 and compares strictly, so a
    variant that declares a negative width is never selected: an image item
    with no original source whose variants all declare negative widths
    yields nothing, and the lookup goes on to the next item. *)
Theorem negative_widths_passed_over :
  forall d l rest,
    dict_get d "type" = Some (PStr "image") ->
    truthy (dict_get_or_none d "original") = false ->
    dict_get d "srcset" = Some (PList l) ->
    Forall (fun s => exists ds w,
                s = PDict ds /\ dict_get ds "width" = Some (PInt w) /\ w < 0) l ->
    items_loop (PDict d :: rest) = items_loop rest.
Proof.
  intros d l rest Hty Horig Hsrcset Hneg.
  cbn [items_loop isinstance_dict negb py_get rbind].
  rewrite (dict_get_or_none_some _ _ _ Hty). cbn [py_ne_str String.eqb Ascii.eqb Bool.eqb negb].
  unfold source_of. cbn [py_get rbind]. unfold py_or at 1. rewrite Horig.
  cbn [py_get dict_get_or_none dict_get rbind truthy].
  rewrite (dict_get_or_none_some _ _ _ Hsrcset).
  assert (Hiter : py_iter (py_or (PList l) (PList [])) = Ok l) by now destruct l.
  rewrite Hiter. cbn [rbind].
  rewrite (srcset_loop_negative l PNone (-1)) by (lia || assumption).
  reflexivity.
Qed.

Lemma negative_widths_passed_over_witness :
  items_loop
    (PDict [("type", PStr "image");
            ("srcset", PList [PDict [("src", PStr "a"); ("width", PInt (-100))]])]
     :: sample_items)
  = items_loop sample_items.
Proof.
  apply negative_widths_passed_over
    with (l := [PDict [("src", PStr "a"); ("width", PInt (-100))]]);
    try reflexivity.
  constructor; [ | constructor ].
  exists [("src", PStr "a"); ("width", PInt (-100))], (-100).
  repeat split; reflexivity.
Defined.

(** ** [_extract_json] *)

Lemma string_app_nil_r (s : string) : (s ++ "")%string = s.
Proof. induction s as [ | c s IH]; cbn; [ reflexivity | now rewrite IH ]. Qed.

Lemma lazy_any_found {A : Type} (k : string -> option A) :
  forall s run r,
    lazy_any k s = Some (run, r) ->
    exists rest, s = (run ++ rest)%string /\ k rest = Some r.
Proof.
  induction s as [ | c s IH]; intros run r; cbn [lazy_any].
  - destruct (k EmptyString) as [r0 | ] eqn:Hk; [ | discriminate ].
    intros [= <- <-]. now exists EmptyString.
  - destruct (k (String c s)) as [r0 | ] eqn:Hk.
    + intros [= <- <-]. now exists (String c s).
    + destruct (lazy_any k s) as [[run' r'] | ] eqn:Hrec; [ | discriminate ].
      intros [= <- <-]. destruct (IH _ _ eq_refl) as (rest & -> & Hrest).
      now exists rest.
Qed.

Lemma after_spaces_found {A : Type} (space_char : ascii -> bool)
  (k : string -> option A) :
  forall s r,
    after_spaces space_char k s = Some r ->
    exists sp rest, s = (sp ++ rest)%string /\ k rest = Some r.
Proof.
  induction s as [ | c s IH]; intros r; cbn [after_spaces].
  - intros Hk. now exists EmptyString, EmptyString.
  - destruct (space_char c).
    + destruct (after_spaces space_char k s) as [r' | ] eqn:Hrec.
      * intros [= <-]. destruct (IH _ eq_refl) as (sp & rest & -> & Hrest).
        now exists (String c sp), rest.
      * intros Hk. now exists EmptyString, (String c s).
    + intros Hk. now exists EmptyString, (String c s).
Qed.

Lemma greedy_to_brace_found :
  forall s run,
    greedy_to_brace s = Some run ->
    exists post, s = (run ++ String close_brace post)%string.
Proof.
  induction s as [ | c s IH]; intros run; cbn [greedy_to_brace]; [ discriminate | ].
  destruct (greedy_to_brace s) as [run' | ].
  - intros [= <-]. destruct (IH _ eq_refl) as (post & ->). now exists post.
  - destruct (Ascii.eqb_spec c close_brace) as [-> | ]; [ | discriminate ].
    intros [= <-]. now exists s.
Qed.

Lemma braced_app (body post : string) :
  (braced body ++ post)%string
  = String open_brace (body ++ String close_brace post)%string.
Proof.
  unfold braced. cbn [append]. now rewrite string_app_assoc.
Qed.

Lemma match_braces_found (s g : string) :
  match_braces s = Some g ->
  exists body post, g = braced body /\ s = (braced body ++ post)%string.
Proof.
  destruct s as [ | c s]; cbn [match_braces]; [ discriminate | ].
  destruct (Ascii.eqb_spec c open_brace) as [-> | ]; [ | discriminate ].
  destruct (greedy_to_brace s) as [run | ] eqn:Hg; [ | discriminate ].
  intros [= <-]. destruct (greedy_to_brace_found _ _ Hg) as (post & ->).
  exists run, post. now rewrite braced_app.
Qed.

Lemma match_fenced_found (space_char : ascii -> bool) (s g : string) :
  match_fenced space_char s = Some g ->
  exists pre body post, g = braced body /\ s = (pre ++ braced body ++ post)%string.
Proof.
  unfold match_fenced.
  destruct (strip_prefix fence_json s) as [rest | ] eqn:Hp; [ | discriminate ].
  intros Hm. apply strip_prefix_app in Hp. subst s.
  destruct (after_spaces_found _ _ _ _ Hm) as (sp & rest' & -> & Hbody).
  destruct rest' as [ | c rest']; [ discriminate | ]. cbn [match_block_body] in Hbody.
  destruct (Ascii.eqb_spec c open_brace) as [-> | ]; [ | discriminate ].
  destruct (lazy_any (match_block_end space_char) rest') as [[run r] | ] eqn:Hl;
    [ | discriminate ].
  injection Hbody as <-. cbn [fst].
  destruct (lazy_any_found _ _ _ _ Hl) as (tail & -> & Hend).
  destruct tail as [ | c tail]; [ discriminate | ]. cbn [match_block_end] in Hend.
  destruct (Ascii.eqb_spec c close_brace) as [-> | ]; [ | discriminate ].
  exists (fence_json ++ sp)%string, run, tail. split; [ reflexivity | ].
  now rewrite braced_app, string_app_assoc.
Qed.

(** X9. What [_extract_json] hands to [json.loads] does not depend on the
    parser and is always a contiguous part of the text that begins with an
    opening brace and ends with a closing brace; when there is no such
    part to hand over, the result is [None] and nothing is parsed. *)
Theorem extract_json_candidate :
  forall (space_char : ascii -> bool) (text : string),
    (forall json_loads, _extract_json space_char json_loads (PStr text) = Ok PNone)
    \/ exists pre body post,
         text = (pre ++ braced body ++ post)%string
         /\ forall json_loads,
              _extract_json space_char json_loads (PStr text) = json_loads (braced body).
Proof.
  intros space_char text. cbn [_extract_json].
  destruct (re_search (match_fenced space_char) text) as [g | ] eqn:Hf.
  - right. destruct (re_search_found _ _ _ Hf) as (pre & suf & -> & Hm).
    destruct (match_fenced_found _ _ _ Hm) as (pre' & body & post & -> & ->).
    exists (pre ++ pre')%string, body, post.
    split; [ now rewrite string_app_assoc | reflexivity ].
  - destruct (re_search match_braces text) as [g | ] eqn:Hb.
    + right. destruct (re_search_found _ _ _ Hb) as (pre & suf & -> & Hm).
      destruct (match_braces_found _ _ Hm) as (body & post & -> & ->).
      now exists pre, body, post.
    + now left.
Qed.

Lemma re_search_some (match_at : string -> option string) :
  forall pre suf g,
    match_at suf = Some g ->
    exists g', re_search match_at (pre ++ suf)%string = Some g'.
Proof.
  induction pre as [ | c pre IH]; intros suf g Hm.
  - cbn [append]. destruct suf as [ | c suf]; cbn [re_search]; rewrite Hm; eauto.
  - cbn [append re_search].
    destruct (match_at (String c (pre ++ suf))); [ eauto | exact (IH _ _ Hm) ].
Qed.

Lemma greedy_to_brace_some :
  forall x y, exists run, greedy_to_brace (x ++ String close_brace y)%string = Some run.
Proof.
  induction x as [ | c x IH]; intros y; cbn [append greedy_to_brace].
  - destruct (greedy_to_brace y); [ eauto | ].
    rewrite Ascii.eqb_refl. eauto.
  - destruct (IH y) as [run ->]. eauto.
Qed.

Lemma match_braces_some (body post : string) :
  exists g, match_braces (braced body ++ post)%string = Some g.
Proof.
  rewrite braced_app. cbn [match_braces]. rewrite Ascii.eqb_refl.
  destruct (greedy_to_brace_some body post) as [run ->]. cbn. eauto.
Qed.

(** X10. [_extract_json] returns [None] without parsing exactly when the
    text holds no opening brace with a closing brace somewhere after it; in
    every other case it hands a candidate to [json.loads]. *)
Theorem extract_json_none_iff :
  forall (space_char : ascii -> bool) (text : string),
    (forall json_loads, _extract_json space_char json_loads (PStr text) = Ok PNone)
    <-> ~ (exists a b c, text = (a ++ braced b ++ c)%string).
Proof.
  intros space_char text. split.
  - intros Hnone (a & b & c & ->).
    destruct (match_braces_some b c) as [g Hg].
    destruct (re_search_some match_braces a _ _ Hg) as [g' Hs].
    specialize (Hnone (fun _ => Raise JSONDecodeError)). cbn [_extract_json] in Hnone.
    rewrite Hs in Hnone.
    destruct (re_search (match_fenced space_char) (a ++ braced b ++ c)); discriminate.
  - intros Hno json_loads. cbn [_extract_json].
    destruct (re_search (match_fenced space_char) text) as [g | ] eqn:Hf.
    + exfalso. apply Hno.
      destruct (re_search_found _ _ _ Hf) as (pre & suf & -> & Hm).
      destruct (match_fenced_found _ _ _ Hm) as (pre' & body & post & -> & ->).
      exists (pre ++ pre')%string, body, post. now rewrite string_app_assoc.
    + destruct (re_search match_braces text) as [g | ] eqn:Hb; [ | reflexivity ].
      exfalso. apply Hno.
      destruct (re_search_found _ _ _ Hb) as (pre & suf & -> & Hm).
      destruct (match_braces_found _ _ Hm) as (body & post & -> & ->).
      now exists pre, body, post.
Qed.

Lemma occurs_app (c : ascii) (a b : string) :
  occurs c (a ++ b)%string = occurs c a || occurs c b.
Proof.
  induction a as [ | x a IH]; cbn [append occurs]; [ reflexivity | ].
  now rewrite IH, orb_assoc.
Qed.

Lemma re_search_none (match_at : string -> option string) :
  forall s,
    (forall pre suf, s = (pre ++ suf)%string -> match_at suf = None) ->
    re_search match_at s = None.
Proof.
  induction s as [ | c s IH]; intros Hall; cbn [re_search].
  - now rewrite (Hall EmptyString EmptyString eq_refl).
  - rewrite (Hall EmptyString (String c s) eq_refl).
    apply IH. intros pre suf ->. now apply (Hall (String c pre) suf).
Qed.

Lemma match_fenced_backtick (space_char : ascii -> bool) (s g : string) :
  match_fenced space_char s = Some g -> exists rest, s = String backtick rest.
Proof.
  unfold match_fenced.
  destruct (strip_prefix fence_json s) as [rest | ] eqn:Hp; [ | discriminate ].
  intros _. apply strip_prefix_app in Hp. subst s. cbn. eauto.
Qed.

(** A text with no backtick has no fenced block. *)
Lemma no_fence_without_backtick (space_char : ascii -> bool) (s : string) :
  occurs backtick s = false -> re_search (match_fenced space_char) s = None.
Proof.
  intros Hno. apply re_search_none. intros pre suf ->.
  destruct (match_fenced space_char suf) as [g | ] eqn:Hm; [ | reflexivity ].
  destruct (match_fenced_backtick _ _ _ Hm) as [rest ->].
  rewrite occurs_app in Hno. cbn [occurs] in Hno.
  rewrite Ascii.eqb_refl, orb_true_r in Hno. discriminate.
Qed.

Lemma re_search_braces_skip :
  forall pre s,
    occurs open_brace pre = false ->
    re_search match_braces (pre ++ s)%string = re_search match_braces s.
Proof.
  induction pre as [ | c pre IH]; intros s Hno; [ reflexivity | ].
  cbn [occurs] in Hno. apply orb_false_iff in Hno. destruct Hno as [Hc Hpre].
  cbn [append re_search match_braces]. rewrite Hc. now apply IH.
Qed.

Lemma greedy_to_brace_none (s : string) :
  occurs close_brace s = false -> greedy_to_brace s = None.
Proof.
  induction s as [ | c s IH]; [ reflexivity | ]. cbn [occurs greedy_to_brace].
  intros Hno. apply orb_false_iff in Hno. destruct Hno as [Hc Hs].
  now rewrite (IH Hs), Hc.
Qed.

Lemma greedy_to_brace_last :
  forall x post,
    occurs close_brace post = false ->
    greedy_to_brace (x ++ String close_brace post)%string = Some x.
Proof.
  induction x as [ | c x IH]; intros post Hno; cbn [append greedy_to_brace].
  - now rewrite (greedy_to_brace_none _ Hno), Ascii.eqb_refl.
  - now rewrite (IH _ Hno).
Qed.

(** X11. In a text with no backtick the candidate runs from the first
    opening brace to the last closing brace: a reply that is one JSON
    object, with or without prose around it, is parsed as that object. *)
Theorem extract_json_plain :
  forall (space_char : ascii -> bool) (json_loads : string -> result pyval)
         (pre body post : string),
    occurs backtick (pre ++ braced body ++ post)%string = false ->
    occurs open_brace pre = false ->
    occurs close_brace post = false ->
    _extract_json space_char json_loads (PStr (pre ++ braced body ++ post)%string)
    = json_loads (braced body).
Proof.
  intros space_char json_loads pre body post Htick Hpre Hpost.
  cbn [_extract_json].
  rewrite (no_fence_without_backtick _ _ Htick).
  rewrite (re_search_braces_skip _ _ Hpre), braced_app.
  cbn [re_search match_braces]. rewrite Ascii.eqb_refl.
  rewrite (greedy_to_brace_last _ _ Hpost). reflexivity.
Qed.

Lemma extract_json_plain_witness :
  _extract_json ascii_space (fun s => Ok (PStr s))
    (PStr ("The bird is " ++ braced "species: suzume" ++ ", I think.")%string)
  = Ok (PStr (braced "species: suzume")).
Proof.
  apply (extract_json_plain ascii_space (fun s => Ok (PStr s))
           "The bird is " "species: suzume" ", I think.");
    reflexivity.
Defined.

Lemma strip_prefix_same (p r : string) : strip_prefix p (p ++ r)%string = Some r.
Proof.
  induction p as [ | a p IH]; cbn [append strip_prefix]; [ reflexivity | ].
  now rewrite Ascii.eqb_refl.
Qed.

Lemma strip_fence_other (c : ascii) (rest : string) :
  (c =? backtick)%char = false -> strip_prefix fence (String c rest) = None.
Proof.
  intros Hc. unfold fence. cbn [strip_prefix]. now rewrite Ascii.eqb_sym, Hc.
Qed.

Lemma lazy_any_unfold {A : Type} (k : string -> option A) (s : string) :
  lazy_any k s
  = match k s with
    | Some r => Some (EmptyString, r)
    | None =>
        match s with
        | EmptyString => None
        | String c rest =>
            match lazy_any k rest with
            | Some (run, r) => Some (String c run, r)
            | None => None
            end
        end
    end.
Proof. now destruct s. Qed.

(** The lazy run stops at the first place where what follows matches. *)
Lemma lazy_any_first {A : Type} (k : string -> option A) :
  forall x tail r,
    k tail = Some r ->
    (forall x1 c x2, x = (x1 ++ String c x2)%string ->
                     k (String c x2 ++ tail)%string = None) ->
    lazy_any k (x ++ tail)%string = Some (x, r).
Proof.
  induction x as [ | c x IH]; intros tail r Hk Hnone.
  - cbn [append]. now rewrite lazy_any_unfold, Hk.
  - rewrite lazy_any_unfold. rewrite (Hnone EmptyString c x eq_refl).
    cbn [append]. rewrite (IH tail r Hk); [ reflexivity | ].
    intros x1 c' x2 ->. exact (Hnone (String c x1) c' x2 eq_refl).
Qed.

(** Spaces are passed over when what follows them matches and does not
    begin with a space. *)
Lemma after_spaces_skip {A : Type} (space_char : ascii -> bool)
  (k : string -> option A) :
  forall ws c rest r,
    all_chars space_char ws = true ->
    space_char c = false ->
    k (String c rest) = Some r ->
    after_spaces space_char k (ws ++ String c rest)%string = Some r.
Proof.
  induction ws as [ | w ws IH]; intros c rest r Hws Hc Hk.
  - cbn [append after_spaces]. now rewrite Hc.
  - cbn [all_chars] in Hws. apply andb_true_iff in Hws. destruct Hws as [Hw Hws].
    cbn [append after_spaces]. now rewrite Hw, (IH _ _ _ Hws Hc Hk).
Qed.

(** Before the closing brace of a text with no backtick the fence is not
    found, however many spaces are passed over. *)
Lemma no_fence_before_brace (space_char : ascii -> bool) :
  space_char close_brace = false ->
  forall y tail,
    occurs backtick y = false ->
    after_spaces space_char
      (fun s' => option_map (fun _ => tt) (strip_prefix fence s'))
      (y ++ String close_brace tail)%string = None.
Proof.
  intros Hclose. induction y as [ | c y IH]; intros tail Hno.
  - cbn [append after_spaces]. rewrite Hclose.
    now rewrite strip_fence_other.
  - cbn [occurs] in Hno. apply orb_false_iff in Hno. destruct Hno as [Hc Hy].
    cbn [append after_spaces]. rewrite (IH _ Hy), (strip_fence_other _ _ Hc).
    now destruct (space_char c).
Qed.

Lemma block_body_found (space_char : ascii -> bool) (body ws post : string) :
  space_char close_brace = false ->
  space_char backtick = false ->
  occurs backtick body = false ->
  all_chars space_char ws = true ->
  match_block_body space_char (braced body ++ ws ++ fence ++ post)%string
  = Some (braced body).
Proof.
  intros Hclose Htick Hbody Hws.
  rewrite braced_app. cbn [match_block_body]. rewrite Ascii.eqb_refl.
  rewrite (lazy_any_first (match_block_end space_char) body _ tt).
  - reflexivity.
  - cbn [match_block_end]. rewrite Ascii.eqb_refl.
    unfold fence at 1. cbn [append].
    apply after_spaces_skip; [ exact Hws | exact Htick | ].
    change (String backtick (String backtick (String backtick post)))
      with (fence ++ post)%string.
    now rewrite strip_prefix_same.
  - intros x1 c x2 ->. cbn [append match_block_end].
    destruct (c =? close_brace)%char; [ | reflexivity ].
    apply no_fence_before_brace; [ exact Hclose | ].
    rewrite occurs_app in Hbody. apply orb_false_iff in Hbody.
    destruct Hbody as [_ Hbody]. cbn [occurs] in Hbody.
    apply orb_false_iff in Hbody. now destruct Hbody.
Qed.

Lemma re_search_fenced_skip (space_char : ascii -> bool) :
  forall pre s,
    occurs backtick pre = false ->
    re_search (match_fenced space_char) (pre ++ s)%string
    = re_search (match_fenced space_char) s.
Proof.
  induction pre as [ | c pre IH]; intros s Hno; [ reflexivity | ].
  cbn [occurs] in Hno. apply orb_false_iff in Hno. destruct Hno as [Hc Hpre].
  cbn [append re_search]. unfold match_fenced at 1.
  unfold fence_json, fence. cbn [append strip_prefix].
  rewrite Ascii.eqb_sym, Hc. now apply IH.
Qed.

(** X12. A fenced block wins: when the text holds, after a part with no
    backtick, the fence with the word json, spaces, a text in braces with
    no backtick in it, spaces and the closing fence, that text in braces is
    what is parsed, whatever braces the prose before and after the block
    holds. *)
Theorem extract_json_fenced :
  forall (space_char : ascii -> bool) (json_loads : string -> result pyval)
         (pre ws1 body ws2 post : string),
    space_char open_brace = false ->
    space_char close_brace = false ->
    space_char backtick = false ->
    occurs backtick pre = false ->
    all_chars space_char ws1 = true ->
    all_chars space_char ws2 = true ->
    occurs backtick body = false ->
    _extract_json space_char json_loads
      (PStr (pre ++ fence_json ++ ws1 ++ braced body ++ ws2 ++ fence ++ post)%string)
    = json_loads (braced body).
Proof.
  intros space_char json_loads pre ws1 body ws2 post
         Hopen Hclose Htick Hpre Hws1 Hws2 Hbody.
  cbn [_extract_json]. rewrite (re_search_fenced_skip _ _ _ Hpre).
  assert (Hm : match_fenced space_char
                 (fence_json ++ ws1 ++ braced body ++ ws2 ++ fence ++ post)%string
               = Some (braced body)).
  { unfold match_fenced. rewrite strip_prefix_same.
    pose proof (block_body_found space_char body ws2 post Hclose Htick Hbody Hws2) as Hb.
    rewrite braced_app in Hb |- *.
    now apply after_spaces_skip. }
  remember (ws1 ++ braced body ++ ws2 ++ fence ++ post)%string as rest eqn:Erest.
  unfold fence_json, fence in Hm |- *. cbn [append] in Hm |- *.
  cbn [re_search]. now rewrite Hm.
Qed.

Lemma extract_json_fenced_witness :
  _extract_json ascii_space (fun s => Ok (PStr s))
    (PStr ("Sure {see below}: " ++ fence_json ++ " " ++ braced "species: suzume"
           ++ " " ++ fence ++ " {done}")%string)
  = Ok (PStr (braced "species: suzume")).
Proof.
  apply (extract_json_fenced ascii_space (fun s => Ok (PStr s))
           "Sure {see below}: " " " "species: suzume" " " " {done}");
    reflexivity.
Defined.

(** ** An upstream that cannot be reached *)






(** ** The reply of the model *)

(** X14. What the analysis returns for a message is [None] or a record of
    exactly three fields, a string, a float and a string; a record is only
    made from a parsed reply that is a non-empty object whose species and
    description are strings or missing and whose confidence converts to a
    float, and it holds those two strings stripped and that float. *)
Theorem analyze_reply_shape :
  forall (space_char : ascii -> bool) (json_loads : string -> result pyval)
         (strip : string -> string) (float_of_str : string -> option spec_float)
         (content : pyval),
    analyze_reply space_char json_loads strip float_of_str content = PNone
    \/ exists d species confidence description,
         _extract_json space_char json_loads (message_text content) = Ok (PDict d)
         /\ d <> []
         /\ dict_get_default d "species" (PStr "") = PStr species
         /\ py_float float_of_str
              (dict_get_default d "confidence" (PFloat (S754_zero false)))
            = Some confidence
         /\ dict_get_default d "description" (PStr "") = PStr description
         /\ analyze_reply space_char json_loads strip float_of_str content
            = PDict [("species", PStr (strip species));
                     ("confidence", PFloat confidence);
                     ("description", PStr (strip description))].
Proof.
  intros space_char json_loads strip float_of_str content. unfold analyze_reply.
  destruct (_extract_json space_char json_loads (message_text content))
    as [result | e] eqn:Hparse; [ | now left ].
  destruct (truthy result) eqn:Htrue; cbn [negb]; [ | now left ].
  destruct result as [ | | | | | | d]; try now left.
  cbn [reply_fields].
  destruct (dict_get_default d "species" (PStr "")) as [ | | | | s | | ] eqn:Hs;
    try now left.
  cbn [py_strip].
  destruct (py_float float_of_str
              (dict_get_default d "confidence" (PFloat (S754_zero false))))
    as [c | ] eqn:Hc; [ | now left ].
  destruct (dict_get_default d "description" (PStr "")) as [ | | | | ds | | ] eqn:Hd;
    try now left.
  cbn [py_strip]. right. exists d, s, c, ds.
  split; [ reflexivity | ].
  split; [ intros ->; discriminate Htrue | ].
  split; [ exact Hs | ].
  split; [ exact Hc | ].
  split; [ exact Hd | reflexivity ].
Qed.

Lemma dict_get_default_none d k default :
  dict_get d k = None -> dict_get_default d k default = default.
Proof. unfold dict_get_default. now intros ->. Qed.

Lemma dict_get_default_some d k default v :
  dict_get d k = Some v -> dict_get_default d k default = v.
Proof. unfold dict_get_default. now intros ->. Qed.

(** X15. A key the parsed reply does not have takes its default, the empty
    string (stripped) or 0.0, so a non-empty object with none of the three
    keys gives an analysis with an empty species; a species or description
    that is null, in contrast, drops the whole analysis. *)
Theorem analyze_reply_missing_or_null :
  forall (space_char : ascii -> bool) (json_loads : string -> result pyval)
         (strip : string -> string) (float_of_str : string -> option spec_float)
         (content : pyval) (d : list (string * pyval)),
    _extract_json space_char json_loads (message_text content) = Ok (PDict d) ->
    d <> [] ->
    (dict_get d "species" = None -> dict_get d "confidence" = None ->
     dict_get d "description" = None ->
     analyze_reply space_char json_loads strip float_of_str content
     = PDict [("species", PStr (strip ""));
              ("confidence", PFloat (S754_zero false));
              ("description", PStr (strip ""))])
    /\ (dict_get d "species" = Some PNone \/ dict_get d "description" = Some PNone ->
        analyze_reply space_char json_loads strip float_of_str content = PNone).
Proof.
  intros space_char json_loads strip float_of_str content d Hparse Hne.
  unfold analyze_reply. rewrite Hparse.
  assert (Htrue : truthy (PDict d) = true) by (destruct d; [ congruence | reflexivity ]).
  rewrite Htrue. cbn [negb reply_fields]. split.
  - intros Hs Hc Hd.
    now rewrite (dict_get_default_none _ _ _ Hs), (dict_get_default_none _ _ _ Hc),
      (dict_get_default_none _ _ _ Hd).
  - intros [Hs | Hd].
    + now rewrite (dict_get_default_some _ _ _ _ Hs).
    + rewrite (dict_get_default_some _ _ _ _ Hd).
      destruct (py_strip strip (dict_get_default d "species" (PStr ""))); [ | reflexivity ].
      now destruct (py_float float_of_str
                      (dict_get_default d "confidence" (PFloat (S754_zero false)))).
Qed.

Lemma analyze_reply_missing_or_null_witness :
  analyze_reply ascii_space (fun _ => Ok (PDict [("bird", PStr "suzume")]))
    (fun s => s) (fun _ => None)
    (PStr (braced "bird: suzume"))
  = PDict [("species", PStr ""); ("confidence", PFloat (S754_zero false));
           ("description", PStr "")].
Proof.
  apply (proj1 (analyze_reply_missing_or_null ascii_space
                  (fun _ => Ok (PDict [("bird", PStr "suzume")]))
                  (fun s => s) (fun _ => None)
                  (PStr (braced "bird: suzume")) [("bird", PStr "suzume")]
                  eq_refl ltac:(discriminate)));
    reflexivity.
Defined.
